(** * RadioAxionSearch: the data-reduction recipe of the example notebooks

    A shallow embedding of the code cells of
    [examples/Load_Effelsberg_Example.ipynb] and
    [examples/Load_GBT_Example.ipynb] (Python 2.7, numpy, scipy.ndimage),
    and the properties of the reduction pipeline proved about them.

    Numbers.  numpy's [float64] samples are modelled by [float64] below:
    exact rationals together with the three IEEE-754 special values.
    Rounding and the sign of zero are abstracted away; everything else
    (propagation of NaN and of the infinities, division by zero, unordered
    comparisons) follows IEEE-754.  Python integers are [Z]; array lengths
    and index arrays are [nat]. *)

From stdpp Require Import base decidable option list strings gmap.
From Stdlib Require Import ZArith QArith Lia.

Local Open Scope Z_scope.

(** ** Floating-point samples *)

Inductive float64 : Type :=
  | Fin (q : Q)   (* a finite number *)
  | PInf          (* +inf *)
  | NInf          (* -inf *)
  | NaN.          (* np.nan *)

Definition fopp (x : float64) : float64 :=
  match x with
  | Fin q => Fin (- q)%Q
  | PInf => NInf
  | NInf => PInf
  | NaN => NaN
  end.

(** The sign of a finite number, as [Qcompare] against zero. *)
Definition Qsign (q : Q) : comparison := (q ?= 0)%Q.

Definition fadd (x y : float64) : float64 :=
  match x, y with
  | NaN, _ | _, NaN => NaN
  | Fin a, Fin b => Fin (a + b)%Q
  | PInf, NInf | NInf, PInf => NaN
  | PInf, _ | _, PInf => PInf
  | NInf, _ | _, NInf => NInf
  end.

Definition fsub (x y : float64) : float64 := fadd x (fopp y).

(** [inf_times s x]: an infinity [x] scaled by a finite factor of sign [s]. *)
Definition inf_times (s : comparison) (x : float64) : float64 :=
  match s with
  | Gt => x
  | Lt => fopp x
  | Eq => NaN
  end.

Definition fmul (x y : float64) : float64 :=
  match x, y with
  | NaN, _ | _, NaN => NaN
  | Fin a, Fin b => Fin (a * b)%Q
  | Fin a, (PInf | NInf) => inf_times (Qsign a) y
  | (PInf | NInf), Fin b => inf_times (Qsign b) x
  | PInf, PInf | NInf, NInf => PInf
  | PInf, NInf | NInf, PInf => NInf
  end.

Definition fdiv (x y : float64) : float64 :=
  match x, y with
  | NaN, _ | _, NaN => NaN
  | Fin a, Fin b =>
      match Qsign b with
      | Eq => match Qsign a with Eq => NaN | Gt => PInf | Lt => NInf end
      | _ => Fin (a / b)%Q
      end
  | Fin _, (PInf | NInf) => Fin 0
  | (PInf | NInf), Fin b => match Qsign b with Lt => fopp x | _ => x end
  | (PInf | NInf), (PInf | NInf) => NaN
  end.

(** Ordered comparison; [None] when an operand is NaN. *)
Definition fcmp (x y : float64) : option comparison :=
  match x, y with
  | NaN, _ | _, NaN => None
  | Fin a, Fin b => Some (a ?= b)%Q
  | NInf, NInf | PInf, PInf => Some Eq
  | NInf, _ | _, PInf => Some Lt
  | PInf, _ | _, NInf => Some Gt
  end.

Definition fle (x y : float64) : bool :=
  match fcmp x y with Some Lt | Some Eq => true | _ => false end.
Definition fge (x y : float64) : bool := fle y x.
Definition flt (x y : float64) : bool :=
  match fcmp x y with Some Lt => true | _ => false end.
Definition fgt (x y : float64) : bool := flt y x.
Definition feqb (x y : float64) : bool :=
  match fcmp x y with Some Eq => true | _ => false end.

Definition is_nan (x : float64) : bool :=
  match x with NaN => true | _ => false end.

(** The same value, up to the representation of the rational. *)
Definition feq (x y : float64) : Prop :=
  match x, y with
  | Fin a, Fin b => (a == b)%Q
  | PInf, PInf | NInf, NInf | NaN, NaN => True
  | _, _ => False
  end.

Definition of_Z (z : Z) : float64 := Fin (inject_Z z).
Definition of_nat (n : nat) : float64 := of_Z (Z.of_nat n).

(** ** Exceptions *)

Inductive exception : Set :=
  | ZeroDivisionError
  | ValueError
  | IndexError
  | NameError
  | TypeError.

Inductive result (A : Type) : Type :=
  | Ok (a : A)
  | Raise (e : exception).
Arguments Ok {A} a.
Arguments Raise {A} e.

#[global] Instance result_ret : MRet result := fun A a => Ok a.
#[global] Instance result_bind : MBind result := fun A B f m =>
  match m with
  | Ok a => f a
  | Raise e => Raise e
  end.

(** ** Python and numpy primitives *)

Abbreviation array := (list float64).

Definition len {A} (arr : list A) : Z := Z.of_nat (length arr).

(** [a / b] on Python 2 integers: floor division. *)
Definition py_div (a b : Z) : result Z :=
  if decide (b = 0) then Raise ZeroDivisionError else Ok (a / b).

(** [arr[:stop]]: a negative stop counts from the end, and the stop is
    clipped to the array. *)
Definition slice_to {A} (arr : list A) (stop : Z) : list A :=
  let stop := if decide (stop < 0) then Z.max 0 (stop + len arr)
              else Z.min stop (len arr) in
  take (Z.to_nat stop) arr.

(** The rows of a C-ordered array of shape [(r, c)]. *)
Fixpoint rows {A} (r c : nat) (arr : list A) : list (list A) :=
  match r with
  | O => []
  | S r' => take c arr :: rows r' c (drop c arr)
  end.

(** [arr.reshape(r, c)], as in numpy 1.16, the last release for
    Python 2.7.  A negative entry of the shape is the unknown dimension, of
    which there can be one; it is inferred from the size when the known
    entry divides it. *)
Definition reshape {A} (arr : list A) (r c : Z) : result (list (list A)) :=
  let size := len arr in
  if decide (r < 0) then
    if decide (c < 0) then Raise ValueError
    else if decide (c = 0 ∨ size mod c ≠ 0) then Raise ValueError
    else Ok (rows (Z.to_nat (size / c)) (Z.to_nat c) arr)
  else if decide (c < 0) then
    if decide (r = 0 ∨ size mod r ≠ 0) then Raise ValueError
    else Ok (rows (Z.to_nat r) (Z.to_nat (size / r)) arr)
  else if decide (size = r * c) then Ok (rows (Z.to_nat r) (Z.to_nat c) arr)
  else Raise ValueError.

(** The sum of one row, accumulated from the left. *)
Definition np_sum (row : array) : float64 := foldl fadd (Fin 0) row.

(** [np.mean] of one row: the sum divided by the number of items. *)
Definition np_mean (row : array) : float64 :=
  fdiv (np_sum row) (of_nat (length row)).

(** [np.mean(m, axis = 1)]. *)
Definition mean_axis1 (m : list array) : array := np_mean <$> m.

(** Element-wise binary operation with numpy's broadcasting of
    one-dimensional operands: equal lengths, or one operand of length 1. *)
Definition broadcast {A B C} (f : A → B → C) (a : list A) (b : list B)
  : result (list C) :=
  if decide (length a = length b) then Ok (zip_with f a b)
  else match a, b with
       | [x], _ => Ok (f x <$> b)
       | _, [y] => Ok ((λ x, f x y) <$> a)
       | _, _ => Raise ValueError
       end.

Definition np_multiply : array → array → result array := broadcast fmul.
Definition np_divide : array → array → result array := broadcast fdiv.
Definition np_logical_and : list bool → list bool → result (list bool) :=
  broadcast andb.

(** [arr >= c] and [arr <= c] for a scalar [c]. *)
Definition np_ge (arr : array) (c : float64) : list bool := (λ v, fge v c) <$> arr.
Definition np_le (arr : array) (c : float64) : list bool := (λ v, fle v c) <$> arr.

(** [np.where(cond)[0]]: the positions of the true entries, ascending. *)
Fixpoint where_from (i : nat) (cond : list bool) : list nat :=
  match cond with
  | [] => []
  | b :: cond' => (if b then [i] else []) ++ where_from (S i) cond'
  end.
Definition np_where (cond : list bool) : list nat := where_from 0 cond.

(** [arr[locs]] for an index array [locs]: a new array, with a bounds
    check on every index. *)
Fixpoint getitem {A} (arr : list A) (locs : list nat) : result (list A) :=
  match locs with
  | [] => Ok []
  | i :: locs' =>
      match arr !! i with
      | Some v => vs ← getitem arr locs'; mret (v :: vs)
      | None => Raise IndexError
      end
  end.

(** [arr[locs] = v] for an index array [locs] and a scalar [v]. *)
Fixpoint setitem {A} (arr : list A) (locs : list nat) (v : A) : result (list A) :=
  match locs with
  | [] => Ok arr
  | i :: locs' =>
      if decide (i < length arr)%nat then setitem (<[i := v]> arr) locs' v
      else Raise IndexError
  end.

Definition np_ones_like (arr : array) : array := (λ _, Fin 1) <$> arr.

(** *** [np.interp] *)

(** The segment of the table that holds [v], for [xp[0] <= v <= xp[-1]]
    and increasing [xp]: the value at the knot when [v] is on it (and at
    the last knot), the chord otherwise. *)
Fixpoint interp_seg (v : float64) (pts : list (float64 * float64)) : float64 :=
  match pts with
  | [] => NaN
  | (x0, y0) :: rest =>
      match rest with
      | [] => y0
      | (x1, y1) :: _ =>
          if flt v x1 then
            if feqb x0 v then y0
            else fadd (fmul (fdiv (fsub y1 y0) (fsub x1 x0)) (fsub v x0)) y0
          else interp_seg v rest
      end
  end.

(** One interpolated value.  [lval] and [rval] are the values returned left
    and right of the table, [fp[0]] and [fp[-1]]; a table of one knot is
    handled apart, before the NaN test. *)
Definition interp_at (xp fp : array) (v : float64) : float64 :=
  let lval := default NaN (head fp) in
  let rval := default NaN (last fp) in
  match xp with
  | [xp_val] =>
      if flt v xp_val then lval
      else if fgt v xp_val then rval
      else default NaN (head fp)
  | _ =>
      if is_nan v then v
      else if flt v (default NaN (head xp)) then lval
      else if fgt v (default NaN (last xp)) then rval
      else interp_seg v (zip xp fp)
  end.

(** [np.interp(x, xp, fp)]: one value per entry of [x]. *)
Definition np_interp (x xp fp : array) : result array :=
  if decide (length xp = 0%nat) then Raise ValueError
  else if decide (length fp ≠ length xp) then Raise ValueError
  else Ok (interp_at xp fp <$> x).

(** *** [scipy.ndimage.median_filter] *)

(** Where position [p] of the padded signal reads in an input of [n]
    samples, for the extension mode ['reflect'], the default of
    [median_filter]: (d c b a | a b c d | d c b a). *)
Definition reflect (n : nat) (p : Z) : nat :=
  if decide (n ≤ 1)%nat then 0%nat
  else let m := p mod (2 * Z.of_nat n) in
       Z.to_nat (if decide (m < Z.of_nat n) then m else 2 * Z.of_nat n - 1 - m).

(** The window of [size] samples centred on channel [i] (origin 0). *)
Definition window (ext : nat → Z → nat) (size : nat) (x : array) (i : nat) : array :=
  (λ d : nat, default NaN (x !! ext (length x) (Z.of_nat i - Z.of_nat (size / 2) + Z.of_nat d)))
    <$> seq 0 size.

(** The window in ascending order.  A NaN compares false with everything,
    so where it ends up depends on its position in the window, as it does
    in scipy; no property below depends on it. *)
Fixpoint insert_sorted (a : float64) (l : array) : array :=
  match l with
  | [] => [a]
  | b :: l' => if fle a b then a :: l else b :: insert_sorted a l'
  end.
Definition sorted (l : array) : array := foldr insert_sorted [] l.

(** The element of rank [size // 2] of the window. *)
Definition median (w : array) : float64 :=
  default NaN (sorted w !! (length w / 2)%nat).

Definition filter_with (ext : nat → Z → nat) (size : nat) (x : array) : array :=
  (λ i, median (window ext size x i)) <$> seq 0 (length x).

(** [ndimage.median_filter(x, size = size)]; [mode] is left at its
    default, ['reflect']. *)
Definition median_filter (x : array) (size : nat) : array :=
  filter_with reflect size x.

(** ** Load_Effelsberg_Example.ipynb

    An earlier copy of this notebook restricts the L band to 1.27 - 1.45 GHz
    instead of 1.28 - 1.46 GHz; its code is otherwise the same. *)

Module Effelsberg.

(** [def downbin(arr, downsample = 3, shift = 0)]:
    [arr = np.copy(arr[0:])]
    [max_index = len(arr) / downsample * downsample]
    [num_intervals = len(arr) / downsample]
    [return np.mean(arr[:max_index].reshape(num_intervals, downsample), axis = 1)].
    The copy does not show in a model without mutation; [shift] is not
    read. *)
Definition downbin (arr : array) (downsample : Z) (shift : Z) : result array :=
  q ← py_div (len arr) downsample;
  let max_index := q * downsample in
  num_intervals ← py_div (len arr) downsample;
  m ← reshape (slice_to arr max_index) num_intervals downsample;
  mret (mean_axis1 m).

(** [downbin(arr)], as the notebook calls it. *)
Definition downbin_default (arr : array) : result array := downbin arr 3 0.

(** The three co-indexed arrays of one band. *)
Record band : Type := Band {
  Freqs : array;
  On_Data : array;
  Off_Data : array
}.

(** "Reduce the Data":
    [Locs = np.where(np.logical_and(Freqs >= lo, Freqs <= hi))], then
    [Freqs = Freqs[Locs]], [On_Data = On_Data[Locs]],
    [Off_Data = Off_Data[Locs]]. *)
Definition reduce (lo hi : float64) (b : band) : result band :=
  cond ← np_logical_and (np_ge (Freqs b) lo) (np_le (Freqs b) hi);
  let Locs := np_where cond in
  f ← getitem (Freqs b) Locs;
  on ← getitem (On_Data b) Locs;
  off ← getitem (Off_Data b) Locs;
  mret (Band f on off).

Definition reduce_LBand : band → result band := reduce (Fin 1.28) (Fin 1.46).
Definition reduce_SBand : band → result band := reduce (Fin 2.4) (Fin 2.7).

(** "Obtain the Data Calibrations":
    [Cal = np.interp(Freqs, Cal_Freqs, Cal_FD)
           / ndimage.median_filter(On_Data, size = 201)]. *)
Definition calibration (Cal_Freqs Cal_FD : array) (b : band) : result array :=
  expected ← np_interp (Freqs b) Cal_Freqs Cal_FD;
  np_divide expected (median_filter (On_Data b) 201).

(** The plotted spectrum, [Cal * On_Data]. *)
Definition flux_density (Cal_Freqs Cal_FD : array) (b : band) : result array :=
  Cal ← calibration Cal_Freqs Cal_FD b;
  np_multiply Cal (On_Data b).

(** "Load and Downbin the Raw Data": the three arrays of one archive,
    each passed through [downbin] with its default arguments
    ([Freqs = downbin(data['Freqs'])] and so on). *)
Definition downbin_band (data : band) : result band :=
  f ← downbin_default (Freqs data);
  on ← downbin_default (On_Data data);
  off ← downbin_default (Off_Data data);
  mret (Band f on off).

(** One band through the whole notebook: downbin, restrict to
    [[lo, hi]], calibrate; the result is the pair of arrays handed to
    [plt.plot(Freqs, Cal * On_Data)]. *)
Definition notebook (lo hi : float64) (Cal_Freqs Cal_FD : array) (data : band)
  : result (array * array) :=
  b ← downbin_band data;
  b ← reduce lo hi b;
  y ← flux_density Cal_Freqs Cal_FD b;
  mret (Freqs b, y).

End Effelsberg.

(** ** Load_GBT_Example.ipynb *)

Module GBT.

(** The notebook's variables: arrays of samples and index arrays. *)
Inductive value : Type :=
  | VArray (a : array)
  | VIndex (locs : list nat).

Abbreviation names := (gmap string value).

Definition get_array (env : names) (x : string) : result array :=
  match env !! x with
  | Some (VArray a) => Ok a
  | Some (VIndex _) => Raise TypeError
  | None => Raise NameError
  end.

Definition get_index (env : names) (x : string) : result (list nat) :=
  match env !! x with
  | Some (VIndex l) => Ok l
  | Some (VArray _) => Raise TypeError
  | None => Raise NameError
  end.

(** [for x in xs: body], threading the variables through the iterations. *)
Fixpoint for_each {A} (body : names → A → result names) (env : names) (xs : list A)
  : result names :=
  match xs with
  | [] => Ok env
  | x :: xs' => env' ← body env x; for_each body env' xs'
  end.

(** The values of a list display [[x1, ..., xn]]. *)
Fixpoint list_display (env : names) (xs : list string) : result (list array) :=
  match xs with
  | [] => Ok []
  | x :: xs' => a ← get_array env x; l ← list_display env xs'; mret (a :: l)
  end.

Section Calibration.

(** [load.get_expected(freqs, source)] of [python/load.py]: the expected
    flux density of a calibration source at each frequency. *)
Variable get_expected : array → string → array.

(** "Infer a Calibration Function":
    [Cal_Func = load.get_expected(Cal_Freqs, '3C48')
                / ndimage.median_filter(Cal_AntennaTemp, size = 31)]. *)
Definition infer_calibration (Cal_Freqs Cal_AntennaTemp : array) : result array :=
  np_divide (get_expected Cal_Freqs "3C48") (median_filter Cal_AntennaTemp 31).

End Calibration.

(** The body of the loop of "Reduce the Data": [item = item[locs]]. *)
Definition reduce_item (env : names) : result names :=
  item ← get_array env "item";
  locs ← get_index env "locs";
  r ← getitem item locs;
  mret (<["item" := VArray r]> env).

(** "Reduce the Data":
    [locs = np.where(np.logical_and(M31_Freqs >= 1.15, M31_Freqs <= 1.73))]
    [for item in [M31_Freqs, ..., Cal_Func]: item = item[locs]]
    [mask_locs = np.where(np.logical_and(M31_Freqs >= 1.2, M31_Freqs <= 1.34))]
    [mask = np.ones_like(M31_Freqs)]
    [mask[mask_locs] = np.nan]. *)
Definition reduce_cell (env : names) : result names :=
  freqs ← get_array env "M31_Freqs";
  cond ← np_logical_and (np_ge freqs (Fin 1.15)) (np_le freqs (Fin 1.73));
  let env := <["locs" := VIndex (np_where cond)]> env in
  items ← list_display env
    ["M31_Freqs"; "M31_AntennaTemp"; "M31_Sig"; "M31_Ref";
     "M31_SigAccept"; "M31_RefAccept"; "Cal_Func"];
  env ← for_each (λ env item, reduce_item (<["item" := VArray item]> env)) env items;
  freqs ← get_array env "M31_Freqs";
  cond ← np_logical_and (np_ge freqs (Fin 1.2)) (np_le freqs (Fin 1.34));
  let env := <["mask_locs" := VIndex (np_where cond)]> env in
  freqs ← get_array env "M31_Freqs";
  let env := <["mask" := VArray (np_ones_like freqs)]> env in
  mask ← get_array env "mask";
  mask_locs ← get_index env "mask_locs";
  mask ← setitem mask mask_locs NaN;
  mret (<["mask" := VArray mask]> env).

(** The interference-band mask of "Reduce the Data", for a blanked range
    [[mlo, mhi]]. *)
Definition make_mask (freqs : array) (mlo mhi : float64) : result array :=
  cond ← np_logical_and (np_ge freqs mlo) (np_le freqs mhi);
  let mask_locs := np_where cond in
  let mask := np_ones_like freqs in
  setitem mask mask_locs NaN.

(** The plotted spectrum, [mask*(Cal_Func * M31_AntennaTemp)]. *)
Definition flux_density (mask Cal_Func M31_AntennaTemp : array) : result array :=
  calibrated ← np_multiply Cal_Func M31_AntennaTemp;
  np_multiply mask calibrated.

Definition plot_cell (env : names) : result array :=
  mask ← get_array env "mask";
  Cal_Func ← get_array env "Cal_Func";
  M31_AntennaTemp ← get_array env "M31_AntennaTemp";
  flux_density mask Cal_Func M31_AntennaTemp.

(** A notebook state just before "Reduce the Data". *)
Definition loaded (freqs temp sig ref sig_acc ref_acc cal : array) : names :=
  <["M31_Freqs" := VArray freqs]> (
  <["M31_AntennaTemp" := VArray temp]> (
  <["M31_Sig" := VArray sig]> (
  <["M31_Ref" := VArray ref]> (
  <["M31_SigAccept" := VArray sig_acc]> (
  <["M31_RefAccept" := VArray ref_acc]> (
  <["Cal_Func" := VArray cal]> ∅)))))).

(** "Reduce the Data" followed by "Plot the Calibrated Flux Density
    Spectra": the pair of arrays handed to
    [plt.plot(M31_Freqs, mask*(Cal_Func * M31_AntennaTemp))]. *)
Definition notebook (env : names) : result (array * array) :=
  env ← reduce_cell env;
  x ← get_array env "M31_Freqs";
  y ← plot_cell env;
  mret (x, y).

End GBT.

(** ** Notions used to state the properties *)

(** The channel condition of a range [[lo, hi]]: [lo <= v <= hi]. *)
Definition in_range (lo hi v : float64) : bool := fge v lo && fle v hi.

(** The entries of [arr] at the channels where [cond] holds, in order. *)
Fixpoint select {A} (cond : list bool) (arr : list A) : list A :=
  match cond, arr with
  | b :: cond', v :: arr' => (if b then [v] else []) ++ select cond' arr'
  | _, _ => []
  end.



(** Strictly increasing samples. *)
Definition increasing (arr : array) : Prop :=
  ∀ i j x y, (i < j)%nat → arr !! i = Some x → arr !! j = Some y → flt x y = true.

(** ** Statements of the specification, for comparison with the code *)

(** The edge handling the specification describes for the median filter:
    positions outside the array read the nearest edge sample. *)
Definition spec_clamp (n : nat) (p : Z) : nat :=
  Z.to_nat (Z.max 0 (Z.min p (Z.of_nat n - 1))).

Definition spec_median_filter (x : array) (size : nat) : array :=
  filter_with spec_clamp size x.

(** The calibration application the specification describes: the
    multiplier is resampled onto the target grid, then multiplied. *)
Definition spec_apply_calibration (cal_freqs cal target_freqs target : array)
  : result array :=
  resampled ← np_interp target_freqs cal_freqs cal;
  np_multiply resampled target.

(** ** Sample inputs *)

Definition one_to_seven : array := of_Z <$> [1; 2; 3; 4; 5; 6; 7].



(** Two Effelsberg channels. *)
Definition two_channels : Effelsberg.band :=
  Effelsberg.Band [Fin 1.3; Fin 1.4] [Fin 2; Fin 4] [Fin 1; Fin 1].

(** A calibration table of three knots. *)
Definition table3 : list (Q * Q) := [(1, 10); (2, 20); (3, 30)]%Q.

(** Six raw Effelsberg channels. *)
Definition six_raw : Effelsberg.band :=
  Effelsberg.Band (Fin <$> [1.27; 1.28; 1.29; 1.30; 1.31; 1.32]%Q)
                  (of_Z <$> [2; 4; 6; 8; 10; 12])
                  (of_Z <$> [1; 1; 1; 1; 1; 1]).

(** Seventeen antenna temperatures. *)
Definition seventeen : array :=
  of_Z <$> [5; 3; 8; 1; 9; 2; 7; 4; 6; 0; 5; 3; 8; 1; 9; 2; 7].

(** A step at the first channel. *)
Definition step16 : array := Fin 0 :: replicate 15 (Fin 1).

(** Three channels, the first and the last outside 1.15 - 1.73 GHz. *)
Definition three_channels : array := [Fin 1.0; Fin 1.2; Fin 1.8].

(** The GBT notebook after loading, with the same three channels in every
    array. *)
Definition gbt_loaded : GBT.names :=
  GBT.loaded three_channels three_channels three_channels three_channels
             three_channels three_channels three_channels.

(** * Properties *)

(** ** Lists *)

Lemma rows_length {A} (r c : nat) (arr : list A) : length (rows r c arr) = r.
Proof. revert arr; induction r as [|r IH]; intros arr; simpl; [done|]. by rewrite IH. Qed.


Lemma rows_singletons {A} (arr : list A) :
  rows (length arr) 1 arr = (λ x, [x]) <$> arr.
Proof. induction arr as [|x arr IH]; simpl; [done|]. by rewrite drop_0, IH. Qed.

(** ** Arithmetic of the samples *)



Lemma np_mean_singleton (x : float64) : np_mean [x] = x.
Proof.
  destruct x as [[n d]| | |]; try reflexivity.
  unfold np_mean, np_sum. simpl. unfold Qsign. simpl.
  unfold Qplus, Qdiv, Qmult, Qinv. simpl.
  by rewrite !Z.mul_1_r, !Pos.mul_1_r.
Qed.

(** ** downbin *)

Lemma downbin_positive (arr : array) (k shift : Z) :
  0 < k →
  Effelsberg.downbin arr k shift =
    Ok (np_mean <$> rows (Z.to_nat (len arr / k)) (Z.to_nat k)
                         (take (Z.to_nat (len arr / k * k)) arr)).
Proof.
  intros Hk. unfold Effelsberg.downbin, py_div.
  destruct (decide (k = 0)) as [?|_]; [lia|]. cbn.
  assert (Hq : 0 ≤ len arr / k) by (apply Z.div_pos; unfold len; lia).
  assert (Hle : len arr / k * k ≤ len arr).
  { rewrite Z.mul_comm. apply Z.mul_div_le. lia. }
  assert (Hs : slice_to arr (len arr / k * k) = take (Z.to_nat (len arr / k * k)) arr).
  { unfold slice_to. destruct (decide (len arr / k * k < 0)); [lia|].
    by rewrite Z.min_l by lia. }
  rewrite Hs. unfold reshape.
  assert (Hlen : len (take (Z.to_nat (len arr / k * k)) arr) = len arr / k * k).
  { unfold len in *. rewrite length_take. lia. }
  rewrite Hlen.
  destruct (decide (len arr / k < 0)); [lia|].
  destruct (decide (k < 0)); [lia|].
  destruct (decide (len arr / k * k = len arr / k * k)); [|done].
  reflexivity.
Qed.




(** C7. With a factor k <= 0 downbin does not return: it raises
    ZeroDivisionError for k = 0 and numpy's ValueError for k < 0. *)
Theorem downbin_nonpositive_fails (arr : array) (k shift : Z) :
  k ≤ 0 →
  Effelsberg.downbin arr k shift =
    Raise (if decide (k = 0) then ZeroDivisionError else ValueError).
Proof.
  intros Hk. unfold Effelsberg.downbin, py_div.
  destruct (decide (k = 0)) as [?|Hne]; [done|]. cbn.
  unfold reshape.
  destruct (decide (len arr / k < 0)) as [Hneg|Hnn].
  - destruct (decide (k < 0)); [done|lia].
  - destruct (decide (k < 0)); [|lia].
    assert (Hz : len arr = 0).
    { destruct (decide (len arr = 0)) as [?|Hpos]; [done|]. exfalso.
      assert (Hdm := Z.div_mod (len arr) k ltac:(lia)).
      assert (Hm := Z.mod_neg_bound (len arr) k ltac:(lia)).
      unfold len in *. nia. }
    destruct arr; [|done]. clear Hz Hnn. cbn.
    repeat case_decide; try done; try lia.
    match goal with Hno : ¬ (_ ∨ _) |- _ => exfalso; apply Hno; left; reflexivity end.
Qed.

Lemma downbin_nonpositive_fails_witness :
  Effelsberg.downbin one_to_seven 0 0 = Raise ZeroDivisionError
  ∧ Effelsberg.downbin one_to_seven (-3) 0 = Raise ValueError.
Proof.
  split.
  - apply (downbin_nonpositive_fails one_to_seven 0 0). lia.
  - apply (downbin_nonpositive_fails one_to_seven (-3) 0). lia.
Defined.

(** C9. The result of downbin does not depend on its shift argument. *)
Theorem downbin_ignores_shift (arr : array) (k s : Z) :
  Effelsberg.downbin arr k s = Effelsberg.downbin arr k 0.
Proof. reflexivity. Qed.

(** C10. downbin with factor 1 returns the input array, sample for sample,
    also when the array is empty. *)
Theorem downbin_one_identity (arr : array) (shift : Z) :
  Effelsberg.downbin arr 1 shift = Ok arr
  ∧ Effelsberg.downbin [] 1 shift = Ok [].
Proof.
  split; [|reflexivity].
  rewrite downbin_positive by lia.
  rewrite Z.div_1_r, Z.mul_1_r. unfold len. rewrite Nat2Z.id.
  change (Z.to_nat 1) with 1%nat.
  rewrite take_ge by lia. rewrite rows_singletons.
  f_equal. rewrite <- list_fmap_compose.
  rewrite <- (list_fmap_id arr) at 2.
  apply list_fmap_ext. intros i x _. apply np_mean_singleton.
Qed.

(** ** Index arrays and selections *)

Lemma broadcast_same_length {A B C} (f : A → B → C) (a : list A) (b : list B) :
  length a = length b → broadcast f a b = Ok (zip_with f a b).
Proof. intros H. unfold broadcast. by rewrite decide_True. Qed.

Lemma range_condition (freqs : array) (lo hi : float64) :
  np_logical_and (np_ge freqs lo) (np_le freqs hi) = Ok (in_range lo hi <$> freqs).
Proof.
  unfold np_logical_and, np_ge, np_le.
  rewrite broadcast_same_length by (by rewrite !length_fmap).
  f_equal. induction freqs as [|v freqs IH]; [done|]. cbn. by f_equal.
Qed.

Lemma elem_of_where_from (s : nat) (cond : list bool) (i : nat) :
  i ∈ where_from s cond ↔ ∃ j, i = (s + j)%nat ∧ cond !! j = Some true.
Proof.
  revert s; induction cond as [|b cond IH]; intros s; simpl.
  - split; [by intros ?%elem_of_nil|by intros (j & _ & ?)].
  - rewrite elem_of_app, IH. split.
    + intros [Hb|(j & -> & Hj)].
      * destruct b; [|by apply elem_of_nil in Hb].
        apply list_elem_of_singleton in Hb as ->. exists 0%nat. split; [lia|done].
      * exists (S j). split; [lia|done].
    + intros ([|j] & -> & Hj); simpl in Hj.
      * left. injection Hj as ->. rewrite Nat.add_0_r. by apply list_elem_of_singleton.
      * right. exists j. split; [lia|done].
Qed.

Lemma elem_of_np_where (cond : list bool) (i : nat) :
  i ∈ np_where cond ↔ cond !! i = Some true.
Proof.
  unfold np_where. rewrite elem_of_where_from. split.
  - by intros (j & -> & ?).
  - intros ?. by exists i.
Qed.

Lemma where_from_none (s : nat) (cond : list bool) :
  Forall (λ b, b = false) cond → where_from s cond = [].
Proof.
  intros H. revert s. induction H as [|b cond -> _ IH]; intros s; simpl; [done|]. apply IH.
Qed.

Lemma getitem_where_from {A} (arr : list A) (cond : list bool) (s : nat) :
  (s + length cond ≤ length arr)%nat →
  getitem arr (where_from s cond) = Ok (select cond (drop s arr)).
Proof.
  revert s; induction cond as [|b cond IH]; intros s Hlen; simpl in *.
  - by destruct (drop s arr).
  - destruct (lookup_lt_is_Some_2 arr s ltac:(lia)) as [v Hv].
    rewrite (drop_S _ _ _ Hv). specialize (IH (S s) ltac:(lia)).
    destruct b; simpl.
    + rewrite Hv. cbn. by rewrite IH.
    + done.
Qed.

Lemma getitem_where {A} (arr : list A) (cond : list bool) :
  (length cond ≤ length arr)%nat →
  getitem arr (np_where cond) = Ok (select cond arr).
Proof. intros H. unfold np_where. by rewrite getitem_where_from by done. Qed.

Lemma select_zip {A B} (cond : list bool) (a : list A) (b : list B) :
  select cond (zip a b) = zip (select cond a) (select cond b).
Proof.
  revert a b; induction cond as [|c cond IH]; intros [|x a] [|y b]; simpl; try done.
  - by destruct c, (select cond a).
  - destruct c; simpl; by rewrite IH.
Qed.

Lemma select_in_range (lo hi : float64) (freqs : array) :
  Forall (λ v, in_range lo hi v = true) (select (in_range lo hi <$> freqs) freqs).
Proof.
  induction freqs as [|v freqs IH]; simpl; [constructor|].
  destruct (in_range lo hi v) eqn:Hv; simpl; [by constructor|done].
Qed.

Lemma select_filter (lo hi : float64) (freqs : array) :
  select (in_range lo hi <$> freqs) freqs = filter (λ v, in_range lo hi v = true) freqs.
Proof.
  induction freqs as [|v freqs IH]; simpl; [done|].
  destruct (in_range lo hi v) eqn:Hv; simpl.
  - rewrite filter_cons_True by done. f_equal. exact IH.
  - rewrite filter_cons_False by (by rewrite Hv). exact IH.
Qed.

(** The Effelsberg notebook rebinds each array to its restriction: the
    reduced arrays are the channels of the three input arrays whose
    frequency lies in the range, taken together. *)
Lemma Effelsberg_reduce_aligned (lo hi : float64) (b : Effelsberg.band) :
  length (Effelsberg.On_Data b) = length (Effelsberg.Freqs b) →
  length (Effelsberg.Off_Data b) = length (Effelsberg.Freqs b) →
  ∃ b', Effelsberg.reduce lo hi b = Ok b'
    ∧ Effelsberg.Freqs b' = filter (λ v, in_range lo hi v = true) (Effelsberg.Freqs b)
    ∧ zip (Effelsberg.Freqs b') (zip (Effelsberg.On_Data b') (Effelsberg.Off_Data b'))
      = select (in_range lo hi <$> Effelsberg.Freqs b)
          (zip (Effelsberg.Freqs b) (zip (Effelsberg.On_Data b) (Effelsberg.Off_Data b)))
    ∧ length (Effelsberg.On_Data b') = length (Effelsberg.Freqs b')
    ∧ length (Effelsberg.Off_Data b') = length (Effelsberg.Freqs b').
Proof.
  destruct b as [f on off]; simpl. intros Hon Hoff.
  unfold Effelsberg.reduce; simpl. rewrite range_condition. cbn.
  rewrite !getitem_where by (rewrite length_fmap; lia). cbn.
  eexists. split; [done|]. simpl.
  split; [apply select_filter|]. split; [by rewrite !select_zip|].
  assert (Hsel : ∀ (a : array), length a = length f →
            length (select (in_range lo hi <$> f) a)
            = length (select (in_range lo hi <$> f) f)).
  { clear. intros a. revert a.
    induction f as [|v f IH]; intros [|x a] Ha; csimpl in *; try done.
    rewrite !length_app. rewrite (IH a) by lia. by destruct (in_range lo hi v). }
  split; by apply Hsel.
Qed.

(** C8. When no channel lies in the range, the restriction of the
    Effelsberg notebook raises nothing and returns the empty frequency
    array together with empty co-indexed arrays. *)
Theorem reduce_no_channel_empty (lo hi : float64) (b : Effelsberg.band) :
  Forall (λ v, in_range lo hi v = false) (Effelsberg.Freqs b) →
  Effelsberg.reduce lo hi b = Ok (Effelsberg.Band [] [] []).
Proof.
  intros Hnone. unfold Effelsberg.reduce. rewrite range_condition. cbn.
  unfold np_where. rewrite where_from_none; [done|].
  by apply Forall_fmap.
Qed.

Lemma reduce_no_channel_empty_witness :
  Effelsberg.reduce_LBand
    (Effelsberg.Band [Fin 1.0; Fin 1.5] [Fin 7; Fin 8] [Fin 5; Fin 6])
  = Ok (Effelsberg.Band [] [] []).
Proof.
  apply (reduce_no_channel_empty (Fin 1.28) (Fin 1.46)
           (Effelsberg.Band [Fin 1.0; Fin 1.5] [Fin 7; Fin 8] [Fin 5; Fin 6])).
  repeat constructor.
Defined.

(** ** The notebook state of the GBT example *)

Lemma bind_Ok {A B} (m : result A) (f : A → result B) (y : B) :
  m ≫= f = Ok y → ∃ x, m = Ok x ∧ f x = Ok y.
Proof. destruct m as [x|e]; cbn; [by exists x|done]. Qed.

Tactic Notation "bind_inv" hyp(H) "as" ident(x) ident(Hx) :=
  apply bind_Ok in H as (x & Hx & H).

Lemma reduce_item_binds_item (env env' : GBT.names) :
  GBT.reduce_item env = Ok env' → ∃ r, env' = <["item" := GBT.VArray r]> env.
Proof.
  unfold GBT.reduce_item. intros H.
  bind_inv H as item Hitem. bind_inv H as locs Hlocs. bind_inv H as r Hr.
  injection H as <-. by eexists.
Qed.

Lemma for_each_item_keeps (items : list array) (env env' : GBT.names) (x : string) :
  GBT.for_each (λ env item, GBT.reduce_item (<["item" := GBT.VArray item]> env))
    env items = Ok env' →
  x ≠ "item" → env' !! x = env !! x.
Proof.
  revert env; induction items as [|item items IH]; intros env H Hx; simpl in H.
  - by injection H as <-.
  - bind_inv H as env1 Hbody. apply reduce_item_binds_item in Hbody as [r ->].
    rewrite (IH _ H Hx). by rewrite !lookup_insert_ne.
Qed.

(** The loop of "Reduce the Data" rebinds its own variable [item] and
    nothing else: after the cell every array of the notebook is the one
    that was loaded. *)
Lemma reduce_cell_keeps_arrays (env env' : GBT.names) (x : string) :
  GBT.reduce_cell env = Ok env' →
  x ∈ ["M31_Freqs"; "M31_AntennaTemp"; "M31_Sig"; "M31_Ref";
       "M31_SigAccept"; "M31_RefAccept"; "Cal_Func"] →
  env' !! x = env !! x.
Proof.
  unfold GBT.reduce_cell. intros H Hx.
  bind_inv H as freqs Hfreqs. bind_inv H as cond Hcond.
  bind_inv H as items Hitems. bind_inv H as env1 Hloop.
  bind_inv H as freqs1 Hfreqs1. bind_inv H as cond1 Hcond1.
  bind_inv H as freqs2 Hfreqs2. bind_inv H as mask Hmask.
  bind_inv H as mask_locs Hmask_locs. bind_inv H as mask' Hset.
  injection H as <-.
  assert (x ≠ "item" ∧ x ≠ "locs" ∧ x ≠ "mask" ∧ x ≠ "mask_locs") as (? & ? & ? & ?).
  { repeat (apply elem_of_cons in Hx as [->|Hx]; [done|]). by apply elem_of_nil in Hx. }
  rewrite !lookup_insert_ne by done.
  rewrite (for_each_item_keeps _ _ _ x Hloop) by done.
  by rewrite lookup_insert_ne.
Qed.

(** The mask that "Reduce the Data" leaves in the notebook is [make_mask]
    of the loaded frequencies and the notch range 1.2 - 1.34 GHz. *)
Lemma reduce_cell_mask (env env' : GBT.names) :
  GBT.reduce_cell env = Ok env' →
  ∃ freqs mask, env !! "M31_Freqs" = Some (GBT.VArray freqs)
    ∧ GBT.make_mask freqs (Fin 1.2) (Fin 1.34) = Ok mask
    ∧ env' !! "mask" = Some (GBT.VArray mask).
Proof.
  unfold GBT.reduce_cell. intros H.
  bind_inv H as freqs Hfreqs. bind_inv H as cond Hcond.
  bind_inv H as items Hitems. bind_inv H as env1 Hloop.
  bind_inv H as freqs1 Hfreqs1. bind_inv H as cond1 Hcond1.
  bind_inv H as freqs2 Hfreqs2. bind_inv H as mask Hmask.
  bind_inv H as mask_locs Hmask_locs. bind_inv H as mask' Hset.
  injection H as <-.
  assert (Hkeep : env1 !! "M31_Freqs" = env !! "M31_Freqs").
  { rewrite (for_each_item_keeps _ _ _ "M31_Freqs" Hloop) by done.
    by rewrite lookup_insert_ne. }
  assert (Hget : ∀ (e : GBT.names) a, GBT.get_array e "M31_Freqs" = Ok a →
                   e !! "M31_Freqs" = Some (GBT.VArray a)).
  { intros e a. unfold GBT.get_array.
    destruct (e !! "M31_Freqs") as [[?|?]|]; naive_solver. }
  apply Hget in Hfreqs, Hfreqs1, Hfreqs2.
  rewrite lookup_insert_ne in Hfreqs2 by done.
  rewrite Hkeep, Hfreqs in Hfreqs1, Hfreqs2.
  injection Hfreqs1 as <-. injection Hfreqs2 as <-.
  unfold GBT.get_array in Hmask. rewrite lookup_insert_eq in Hmask.
  injection Hmask as <-.
  unfold GBT.get_index in Hmask_locs.
  rewrite lookup_insert_ne, lookup_insert_eq in Hmask_locs by done.
  injection Hmask_locs as <-.
  exists freqs, mask'. split; [done|]. split.
  - unfold GBT.make_mask. rewrite Hcond1. cbn. exact Hset.
  - by rewrite lookup_insert_eq.
Qed.

(** C1 (GBT notebook). On three channels at 1.0, 1.2 and 1.8 GHz the cell
    "Reduce the Data" runs without error and leaves all seven arrays as
    loaded: the restricted channels end up in the loop variable only, and
    the frequency array still holds 1.0 and 1.8, outside 1.15 - 1.73. *)
Theorem gbt_reduce_keeps_out_of_range_channels :
  ∃ env', GBT.reduce_cell gbt_loaded = Ok env'
    ∧ Forall (λ x, env' !! x = Some (GBT.VArray three_channels))
        ["M31_Freqs"; "M31_AntennaTemp"; "M31_Sig"; "M31_Ref";
         "M31_SigAccept"; "M31_RefAccept"; "Cal_Func"]
    ∧ env' !! "locs" = Some (GBT.VIndex [1%nat])
    ∧ env' !! "item" = Some (GBT.VArray [Fin 1.2])
    ∧ in_range (Fin 1.15) (Fin 1.73) <$> three_channels = [false; true; false].
Proof.
  eexists. split; [vm_compute; reflexivity|].
  split; [repeat constructor|]. by vm_compute.
Qed.

(** ** The interference-band mask *)

Lemma setitem_lookup {A} (arr : list A) (locs : list nat) (v : A) :
  Forall (λ i, (i < length arr)%nat) locs →
  ∃ arr', setitem arr locs v = Ok arr'
    ∧ length arr' = length arr
    ∧ ∀ i x, arr !! i = Some x →
        arr' !! i = Some (if decide (i ∈ locs) then v else x).
Proof.
  revert arr; induction locs as [|i0 locs IH]; intros arr Hlocs; cbn [setitem].
  - exists arr. split; [done|]. split; [done|]. intros i x Hi.
    by rewrite decide_False by apply not_elem_of_nil.
  - apply Forall_cons in Hlocs as [Hi0 Hlocs].
    case_decide; [|done].
    destruct (IH (<[i0 := v]> arr)) as (arr' & Hrun & Hlen & Hlook).
    { by rewrite length_insert. }
    exists arr'. split; [done|]. split; [by rewrite Hlen, length_insert|].
    intros i x Hi. destruct (decide (i = i0)) as [->|Hne].
    + rewrite (Hlook i0 v) by (by apply list_lookup_insert_eq).
      rewrite (decide_True (P := i0 ∈ i0 :: locs)) by (apply elem_of_cons; by left).
      by destruct (decide (i0 ∈ locs)).
    + rewrite (Hlook i x) by (by rewrite list_lookup_insert_ne).
      destruct (decide (i ∈ locs)) as [Hin|Hnin].
      * by rewrite decide_True by (apply elem_of_cons; by right).
      * rewrite decide_False; [done|].
        intros [?|?]%elem_of_cons; done.
Qed.

Lemma make_mask_lookup (freqs : array) (mlo mhi : float64) :
  ∃ mask, GBT.make_mask freqs mlo mhi = Ok mask
    ∧ length mask = length freqs
    ∧ ∀ i f, freqs !! i = Some f →
        mask !! i = Some (if in_range mlo mhi f then NaN else Fin 1).
Proof.
  unfold GBT.make_mask. rewrite range_condition. cbn.
  destruct (setitem_lookup (np_ones_like freqs)
              (np_where (in_range mlo mhi <$> freqs)) NaN)
    as (mask & Hrun & Hlen & Hlook).
  { apply Forall_forall. intros i Hi%elem_of_np_where.
    apply lookup_lt_Some in Hi. unfold np_ones_like.
    rewrite length_fmap in Hi. by rewrite length_fmap. }
  exists mask. split; [done|].
  unfold np_ones_like in *. rewrite length_fmap in Hlen. split; [done|].
  intros i f Hf. rewrite (Hlook i (Fin 1)) by (by rewrite list_lookup_fmap, Hf).
  f_equal. destruct (in_range mlo mhi f) eqn:Hr.
  - rewrite decide_True; [done|].
    apply elem_of_np_where. by rewrite list_lookup_fmap, Hf; simpl; rewrite Hr.
  - rewrite decide_False; [done|].
    intros Hin%elem_of_np_where. rewrite list_lookup_fmap, Hf in Hin.
    simpl in Hin. congruence.
Qed.

(** C5. The mask of a frequency array and a blanked range [mlo, mhi] has
    the length of the frequency array, is NaN at every channel with
    mlo <= freq <= mhi and 1 at every other channel; multiplied onto the
    calibrated array it gives an array of the same length, whatever the
    number of blanked channels, with NaN at the blanked channels. *)
Theorem mask_preserves_length (freqs Cal_Func M31_AntennaTemp : array)
    (mlo mhi : float64) :
  length Cal_Func = length freqs →
  length M31_AntennaTemp = length freqs →
  ∃ mask calibrated out,
    GBT.make_mask freqs mlo mhi = Ok mask
    ∧ length mask = length freqs
    ∧ (∀ i f, freqs !! i = Some f →
         mask !! i = Some (if in_range mlo mhi f then NaN else Fin 1))
    ∧ np_multiply Cal_Func M31_AntennaTemp = Ok calibrated
    ∧ GBT.flux_density mask Cal_Func M31_AntennaTemp = Ok out
    ∧ length out = length calibrated
    ∧ length out = length M31_AntennaTemp
    ∧ (∀ i f, freqs !! i = Some f → in_range mlo mhi f = true →
         out !! i = Some NaN)
    ∧ (∀ i f c, freqs !! i = Some f → in_range mlo mhi f = false →
         calibrated !! i = Some c → out !! i = Some (fmul (Fin 1) c)).
Proof.
  intros Hcal Htemp.
  destruct (make_mask_lookup freqs mlo mhi) as (mask & Hrun & Hlen & Hlook).
  exists mask, (zip_with fmul Cal_Func M31_AntennaTemp),
    (zip_with fmul mask (zip_with fmul Cal_Func M31_AntennaTemp)).
  assert (Hc : length (zip_with fmul Cal_Func M31_AntennaTemp) = length freqs).
  { rewrite length_zip_with. lia. }
  split; [done|]. split; [done|]. split; [done|].
  split; [unfold np_multiply; apply broadcast_same_length; lia|].
  split.
  { unfold GBT.flux_density, np_multiply.
    rewrite (broadcast_same_length fmul Cal_Func) by lia. cbn.
    apply broadcast_same_length. lia. }
  split; [rewrite !length_zip_with; lia|].
  split; [rewrite !length_zip_with; lia|].
  split.
  - intros i f Hf Hr. rewrite lookup_zip_with, (Hlook i f Hf), Hr. simpl.
    destruct (lookup_lt_is_Some_2 (zip_with fmul Cal_Func M31_AntennaTemp) i)
      as [c ->]; [|done].
    apply lookup_lt_Some in Hf. lia.
  - intros i f c Hf Hr Hci. by rewrite lookup_zip_with, (Hlook i f Hf), Hr, Hci.
Qed.

Lemma mask_preserves_length_witness :
  ∃ mask calibrated out,
    GBT.make_mask [Fin 1.0; Fin 1.2; Fin 1.25; Fin 1.3; Fin 1.4] (Fin 1.2) (Fin 1.3)
      = Ok mask
    ∧ length mask = 5%nat
    ∧ np_multiply (replicate 5 (Fin 2)) (replicate 5 (Fin 3)) = Ok calibrated
    ∧ GBT.flux_density mask (replicate 5 (Fin 2)) (replicate 5 (Fin 3)) = Ok out
    ∧ length out = length calibrated.
Proof.
  destruct (mask_preserves_length
              [Fin 1.0; Fin 1.2; Fin 1.25; Fin 1.3; Fin 1.4]
              (replicate 5 (Fin 2)) (replicate 5 (Fin 3)) (Fin 1.2) (Fin 1.3)
              eq_refl eq_refl)
    as (mask & calibrated & out & Hmask & Hlen & _ & Hcal & Hout & Hlo & _).
  exists mask, calibrated, out. repeat split; assumption.
Defined.

(** The scenario of the specification: blanking 1.2 - 1.3 GHz in
    [1.0, 1.2, 1.25, 1.3, 1.4] gives [1, NaN, NaN, NaN, 1]. *)
Example make_mask_scenario :
  GBT.make_mask [Fin 1.0; Fin 1.2; Fin 1.25; Fin 1.3; Fin 1.4] (Fin 1.2) (Fin 1.3)
  = Ok [Fin 1; NaN; NaN; NaN; Fin 1].
Proof. reflexivity. Qed.

(** ** The median filter *)

Lemma filter_with_length (ext : nat → Z → nat) (size : nat) (x : array) :
  length (filter_with ext size x) = length x.
Proof. unfold filter_with. by rewrite length_fmap, length_seq. Qed.

Lemma median_filter_length (x : array) (size : nat) :
  length (median_filter x size) = length x.
Proof. apply filter_with_length. Qed.

Lemma median_filter_lookup (x : array) (size i : nat) :
  (i < length x)%nat →
  median_filter x size !! i = Some (median (window reflect size x i)).
Proof.
  intros Hi. unfold median_filter, filter_with.
  by rewrite list_lookup_fmap, lookup_seq_lt.
Qed.

Lemma window_length (ext : nat → Z → nat) (size : nat) (x : array) (i : nat) :
  length (window ext size x i) = size.
Proof. unfold window. by rewrite length_fmap, length_seq. Qed.

Lemma window_lookup (ext : nat → Z → nat) (size : nat) (x : array) (i j : nat) :
  (j < size)%nat →
  window ext size x i !! j
  = Some (default NaN (x !! ext (length x)
                         (Z.of_nat i - Z.of_nat (size / 2) + Z.of_nat j))).
Proof. intros Hj. unfold window. by rewrite list_lookup_fmap, lookup_seq_lt. Qed.

(** ['reflect'] reads the periodic repetition of the array followed by
    its mirror image. *)
Lemma reflect_mirror (x : array) (p : Z) :
  x ≠ [] →
  x !! reflect (length x) p
  = (x ++ reverse x) !! Z.to_nat (p mod (2 * Z.of_nat (length x))).
Proof.
  intros Hne. assert (Hn : (0 < length x)%nat) by (destruct x; [done|simpl; lia]).
  assert (Hm := Z.mod_pos_bound p (2 * Z.of_nat (length x)) ltac:(lia)).
  unfold reflect. set (m := p mod (2 * Z.of_nat (length x))) in *.
  destruct (decide (m < Z.of_nat (length x))) as [Hlt|Hge].
  - rewrite lookup_app_l by lia. case_decide; [|done].
    f_equal. lia.
  - rewrite lookup_app_r by lia.
    rewrite reverse_lookup by lia.
    case_decide; f_equal; lia.
Qed.

Lemma reflect_inside (n : nat) (p : Z) :
  0 ≤ p < Z.of_nat n → reflect n p = Z.to_nat p.
Proof.
  intros Hp. unfold reflect. case_decide; [lia|].
  rewrite Z.mod_small by lia. case_decide; lia.
Qed.

Lemma reflect_left (n : nat) (p : Z) :
  - Z.of_nat n ≤ p < 0 → reflect n p = Z.to_nat (- p - 1).
Proof.
  intros Hp. unfold reflect. case_decide; [lia|].
  rewrite <- (Z.mod_add p 1) by lia. rewrite Z.mod_small by lia.
  case_decide; lia.
Qed.

Lemma reflect_right (n : nat) (p : Z) :
  Z.of_nat n ≤ p < 2 * Z.of_nat n → reflect n p = Z.to_nat (2 * Z.of_nat n - 1 - p).
Proof.
  intros Hp. unfold reflect. case_decide; [lia|].
  rewrite Z.mod_small by lia. case_decide; lia.
Qed.

Lemma default_lookup (x : array) (k : nat) :
  (k < length x)%nat → Some (default NaN (x !! k)) = x !! k.
Proof. intros Hk. by destruct (lookup_lt_is_Some_2 x k Hk) as [v ->]. Qed.

(** Away from the edges the window is a slice of the array. *)
Lemma window_interior (x : array) (r i : nat) :
  (r ≤ i)%nat → (i + r < length x)%nat →
  window reflect (2 * r + 1) x i = take (2 * r + 1) (drop (i - r) x).
Proof.
  intros Hri Hin. apply list_eq. intros j.
  assert (Hhalf : ((2 * r + 1) / 2 = r)%nat).
  { symmetry. apply (Nat.div_unique _ 2 r 1); lia. }
  destruct (decide (j < 2 * r + 1)%nat) as [Hj|Hj].
  - rewrite window_lookup, Hhalf by done.
    rewrite reflect_inside by lia. rewrite default_lookup by lia.
    rewrite lookup_take_lt, lookup_drop by done. f_equal. lia.
  - rewrite lookup_ge_None_2 by (rewrite window_length; lia).
    by rewrite lookup_take_ge by lia.
Qed.

(** At the left edge the missing samples are the first samples of the
    array in reverse order. *)
Lemma window_left_edge (x : array) (r i : nat) :
  (i ≤ r)%nat → (i + r < length x)%nat →
  window reflect (2 * r + 1) x i = reverse (take (r - i) x) ++ take (i + r + 1) x.
Proof.
  intros Hri Hin. apply list_eq. intros j.
  assert (Hhalf : ((2 * r + 1) / 2 = r)%nat).
  { symmetry. apply (Nat.div_unique _ 2 r 1); lia. }
  assert (Hlt : length (reverse (take (r - i) x)) = (r - i)%nat).
  { rewrite length_reverse, length_take. lia. }
  destruct (decide (j < 2 * r + 1)%nat) as [Hj|Hj].
  - rewrite window_lookup, Hhalf by done.
    destruct (decide (j < r - i)%nat) as [Hleft|Hright].
    + rewrite reflect_left by lia. rewrite default_lookup by lia.
      rewrite lookup_app_l by lia.
      rewrite reverse_lookup by (rewrite length_take; lia).
      rewrite length_take, lookup_take_lt by lia. f_equal. lia.
    + rewrite reflect_inside by lia. rewrite default_lookup by lia.
      rewrite lookup_app_r, Hlt by lia.
      rewrite lookup_take_lt by lia. f_equal. lia.
  - rewrite lookup_ge_None_2 by (rewrite window_length; lia).
    symmetry. apply lookup_ge_None_2.
    rewrite length_app, Hlt, length_take. lia.
Qed.

(** At the right edge they are the last samples in reverse order. *)
Lemma window_right_edge (x : array) (r i : nat) :
  (r ≤ i)%nat → (i < length x)%nat → (length x ≤ i + r)%nat →
  (i + r < 2 * length x)%nat →
  window reflect (2 * r + 1) x i
  = drop (i - r) x ++ reverse (drop (2 * length x - 1 - i - r) x).
Proof.
  intros Hri Hi Hover Hin. apply list_eq. intros j.
  assert (Hhalf : ((2 * r + 1) / 2 = r)%nat).
  { symmetry. apply (Nat.div_unique _ 2 r 1); lia. }
  assert (Hld : length (drop (i - r) x) = (length x - (i - r))%nat)
    by apply length_drop.
  destruct (decide (j < 2 * r + 1)%nat) as [Hj|Hj].
  - rewrite window_lookup, Hhalf by done.
    destruct (decide (j < length x - (i - r))%nat) as [Hleft|Hright].
    + rewrite reflect_inside by lia. rewrite default_lookup by lia.
      rewrite lookup_app_l by lia. rewrite lookup_drop. f_equal. lia.
    + rewrite reflect_right by lia. rewrite default_lookup by lia.
      rewrite lookup_app_r, Hld by lia.
      rewrite reverse_lookup by (rewrite length_drop; lia).
      rewrite length_drop, lookup_drop. f_equal. lia.
  - rewrite lookup_ge_None_2 by (rewrite window_length; lia).
    symmetry. apply lookup_ge_None_2.
    rewrite length_app, Hld, length_reverse, length_drop. lia.
Qed.

Lemma reflect_bound (n : nat) (p : Z) : (0 < n)%nat → (reflect n p < n)%nat.
Proof.
  intros Hn. unfold reflect. case_decide; [lia|].
  assert (Hm := Z.mod_pos_bound p (2 * Z.of_nat n) ltac:(lia)).
  case_decide; lia.
Qed.

(** C3 (as amended). The median filter of the calibration derivation has
    the fixed odd width 31 (GBT) or 201 (Effelsberg); its output at channel
    i is the median of the window of that width centred on i, and the
    window positions outside the array read the array mirrored about its
    edge (scipy's default mode 'reflect'): the periodic repetition of the
    array followed by its reverse, so that at the left edge the missing
    samples are the first samples in reverse order and at the right edge
    the last samples in reverse order. *)
Theorem median_filter_reflects_edges (x : array) (size i : nat) :
  size = 31%nat ∨ size = 201%nat → (i < length x)%nat →
  let r := (size / 2)%nat in
  let w := window reflect size x i in
  Nat.odd size = true
  ∧ (∀ get_expected Cal_Freqs Cal_AntennaTemp,
       GBT.infer_calibration get_expected Cal_Freqs Cal_AntennaTemp
       = np_divide (get_expected Cal_Freqs "3C48") (median_filter Cal_AntennaTemp 31))
  ∧ (∀ Cal_Freqs Cal_FD b,
       Effelsberg.calibration Cal_Freqs Cal_FD b
       = np_interp (Effelsberg.Freqs b) Cal_Freqs Cal_FD ≫= λ expected,
         np_divide expected (median_filter (Effelsberg.On_Data b) 201))
  ∧ length (median_filter x size) = length x
  ∧ median_filter x size !! i = Some (median w)
  ∧ length w = size
  ∧ (∀ j : nat, (j < size)%nat →
       w !! j = (x ++ reverse x)
                  !! Z.to_nat ((Z.of_nat i - Z.of_nat r + Z.of_nat j)
                               mod (2 * Z.of_nat (length x))))
  ∧ ((r ≤ i)%nat → (i + r < length x)%nat → w = take size (drop (i - r) x))
  ∧ ((i ≤ r)%nat → (i + r < length x)%nat →
       w = reverse (take (r - i) x) ++ take (i + r + 1) x)
  ∧ ((r ≤ i)%nat → (length x ≤ i + r)%nat → (i + r < 2 * length x)%nat →
       w = drop (i - r) x ++ reverse (drop (2 * length x - 1 - i - r) x)).
Proof.
  intros Hsize Hi r w.
  assert (Hr : size = (2 * r + 1)%nat ∧ Nat.odd size = true).
  { unfold r. by destruct Hsize as [-> | ->]. }
  destruct Hr as [Hr Hodd].
  split; [done|]. split; [done|]. split; [done|].
  split; [apply median_filter_length|].
  split; [by apply median_filter_lookup|].
  split; [apply window_length|].
  split.
  { intros j Hj. unfold w. rewrite window_lookup by done. fold r.
    assert (Hne : x ≠ []) by (intros ->; simpl in Hi; lia).
    rewrite default_lookup by (apply reflect_bound; lia).
    by apply reflect_mirror. }
  unfold w. rewrite Hr.
  split; [apply window_interior|].
  split; [apply window_left_edge|].
  intros ???. by apply window_right_edge.
Qed.

Lemma median_filter_reflects_edges_witness :
  median_filter seventeen 31 !! 1%nat
  = Some (median (reverse (take 14 seventeen) ++ seventeen)).
Proof.
  assert (Hi : (1 < length seventeen)%nat) by (simpl; lia).
  destruct (median_filter_reflects_edges seventeen 31 1 (or_introl eq_refl) Hi)
    as (_ & _ & _ & _ & Hmed & _ & _ & _ & Hleft & _).
  rewrite Hmed, Hleft by (simpl; lia). reflexivity.
Defined.

(** C3 (as stated) fails: on a step at the first channel the filter of the
    notebooks reads the mirrored samples and returns 1 at channel 0, where
    a filter padded with the clamped boundary value returns 0. *)
Lemma median_filter_not_clamped :
  median_filter step16 31 !! 0%nat = Some (Fin 1)
  ∧ spec_median_filter step16 31 !! 0%nat = Some (Fin 0)
  ∧ median_filter step16 31
    ≠ spec_median_filter step16 31.
Proof.
  assert (H1 : median_filter step16 31 !! 0%nat
               = Some (Fin 1)) by (by vm_compute).
  assert (H2 : spec_median_filter step16 31 !! 0%nat
               = Some (Fin 0)) by (by vm_compute).
  split; [done|]. split; [done|].
  intros Heq. rewrite Heq, H2 in H1. discriminate.
Qed.

(** ** The calibration function *)




Lemma np_interp_length (x xp fp : array) :
  xp ≠ [] → length fp = length xp →
  np_interp x xp fp = Ok (interp_at xp fp <$> x)
  ∧ length (interp_at xp fp <$> x) = length x.
Proof.
  intros Hne Hlen. unfold np_interp.
  rewrite decide_False by (by destruct xp).
  rewrite decide_False by (by intros ?).
  split; [done|]. by rewrite length_fmap.
Qed.




(** ** Calibration application *)

(** C6 (as amended). The calibration multiplier is multiplied onto the
    target array channel by channel, without resampling.  In the
    Effelsberg notebook the linear interpolation comes earlier: the table
    of expected flux densities, on its own frequency grid, is interpolated
    onto the frequencies of the target band, and the multiplier is derived
    there; the calibrated array has one value per target channel.  In the
    GBT notebook the multiplier of the calibration observation is used as
    it is, and the calibrated array has the target's channel count when the
    multiplier has that many channels. *)
Theorem calibration_application
    (Eff_Freqs Eff_FD : array) (b : Effelsberg.band)
    (mask Cal_Func M31_AntennaTemp : array) :
  Eff_Freqs ≠ [] → length Eff_FD = length Eff_Freqs →
  length (Effelsberg.On_Data b) = length (Effelsberg.Freqs b) →
  length Cal_Func = length M31_AntennaTemp →
  length mask = length M31_AntennaTemp →
  (∃ expected Cal out,
     np_interp (Effelsberg.Freqs b) Eff_Freqs Eff_FD = Ok expected
     ∧ expected = interp_at Eff_Freqs Eff_FD <$> Effelsberg.Freqs b
     ∧ Effelsberg.calibration Eff_Freqs Eff_FD b = Ok Cal
     ∧ Cal = zip_with fdiv expected (median_filter (Effelsberg.On_Data b) 201)
     ∧ Effelsberg.flux_density Eff_Freqs Eff_FD b = Ok out
     ∧ out = zip_with fmul Cal (Effelsberg.On_Data b)
     ∧ length out = length (Effelsberg.Freqs b))
  ∧ (∃ out,
       GBT.flux_density mask Cal_Func M31_AntennaTemp = Ok out
       ∧ out = zip_with fmul mask (zip_with fmul Cal_Func M31_AntennaTemp)
       ∧ length out = length M31_AntennaTemp).
Proof.
  intros Hne Hfd Hon Hcal Hmask. split.
  - destruct (np_interp_length (Effelsberg.Freqs b) Eff_Freqs Eff_FD Hne Hfd)
      as [Hint Hlen].
    assert (Hdiv : np_divide (interp_at Eff_Freqs Eff_FD <$> Effelsberg.Freqs b)
                     (median_filter (Effelsberg.On_Data b) 201)
                   = Ok (zip_with fdiv (interp_at Eff_Freqs Eff_FD <$> Effelsberg.Freqs b)
                           (median_filter (Effelsberg.On_Data b) 201))).
    { apply broadcast_same_length. rewrite median_filter_length. lia. }
    assert (Hlc : length (zip_with fdiv (interp_at Eff_Freqs Eff_FD <$> Effelsberg.Freqs b)
                            (median_filter (Effelsberg.On_Data b) 201))
                  = length (Effelsberg.Freqs b)).
    { rewrite length_zip_with, median_filter_length. lia. }
    assert (Hcalib : Effelsberg.calibration Eff_Freqs Eff_FD b
                     = Ok (zip_with fdiv (interp_at Eff_Freqs Eff_FD <$> Effelsberg.Freqs b)
                             (median_filter (Effelsberg.On_Data b) 201))).
    { unfold Effelsberg.calibration. rewrite Hint. exact Hdiv. }
    eexists _, _, _. split; [exact Hint|]. split; [done|].
    split; [exact Hcalib|]. split; [done|].
    split.
    { unfold Effelsberg.flux_density. rewrite Hcalib. cbn.
      apply broadcast_same_length. lia. }
    split; [done|]. rewrite length_zip_with. lia.
  - eexists. split.
    { unfold GBT.flux_density, np_multiply.
      rewrite (broadcast_same_length fmul Cal_Func) by done. cbn.
      apply broadcast_same_length. rewrite length_zip_with. lia. }
    split; [done|]. rewrite !length_zip_with. lia.
Qed.

Lemma calibration_application_witness :
  (∃ out, Effelsberg.flux_density [Fin 1; Fin 2] [Fin 10; Fin 20] two_channels = Ok out
     ∧ length out = 2%nat)
  ∧ (∃ out, GBT.flux_density [Fin 1; NaN] [Fin 3; Fin 3] [Fin 2; Fin 4] = Ok out
       ∧ length out = 2%nat).
Proof.
  assert (Hne : [Fin 1; Fin 2] ≠ []) by done.
  destruct (calibration_application [Fin 1; Fin 2] [Fin 10; Fin 20] two_channels
              [Fin 1; NaN] [Fin 3; Fin 3] [Fin 2; Fin 4]
              Hne eq_refl eq_refl eq_refl eq_refl)
    as [(expected & Cal & out & _ & _ & _ & _ & Hrun & _ & Hlen)
        (out' & Hrun' & _ & Hlen')].
  split; [by exists out|by exists out'].
Defined.

(** C6 (as stated) fails in the GBT notebook.  With the calibration
    observation on the grid 1, 2 GHz and the target on 1.5, 2 GHz the
    multiplier [10, 20] is applied as it is, giving [10, 20] where
    resampling first would give [15, 20]; and a multiplier of three
    channels cannot be applied to a target of two at all. *)
Lemma calibration_not_resampled :
  GBT.flux_density [Fin 1; Fin 1] [Fin 10; Fin 20] [Fin 1; Fin 1]
    = Ok [Fin 10; Fin 20]
  ∧ (∃ out, spec_apply_calibration [Fin 1; Fin 2] [Fin 10; Fin 20]
              [Fin 1.5; Fin 2] [Fin 1; Fin 1] = Ok out
       ∧ Forall2 feq out [Fin 15; Fin 20])
  ∧ ¬ Forall2 feq [Fin 10; Fin 20] [Fin 15; Fin 20]
  ∧ GBT.flux_density [Fin 1; Fin 1] [Fin 10; Fin 20; Fin 30] [Fin 1; Fin 1]
    = Raise ValueError
  ∧ (∃ out, spec_apply_calibration [Fin 1; Fin 2; Fin 3] [Fin 10; Fin 20; Fin 30]
              [Fin 1.5; Fin 2.5] [Fin 1; Fin 1] = Ok out
       ∧ length out = 2%nat).
Proof.
  split; [by vm_compute|].
  split; [eexists; split; [by vm_compute|by repeat constructor]|].
  split.
  { intros H. apply Forall2_cons_1 in H as [H _]. simpl in H.
    by apply Qeq_bool_iff in H. }
  split; [by vm_compute|].
  eexists; split; by vm_compute.
Qed.

(** ** Linear interpolation *)

(** Between two neighbouring knots [(x0, y0)] and [(x1, y1)] of an
    increasing table, [np.interp] returns the value at the left knot when
    the argument is on it, and the point of the chord otherwise. *)
Lemma interp_seg_chord (pre post : list (Q * Q)) (x0 y0 x1 y1 v : Q) :
  Forall (λ p, (p.1 <= v)%Q) pre → (x0 <= v)%Q → (v < x1)%Q →
  interp_seg (Fin v)
    ((λ p, (Fin p.1, Fin p.2)) <$> (pre ++ (x0, y0) :: (x1, y1) :: post))
  = match (x0 ?= v)%Q with
    | Eq => Fin y0
    | _ => Fin ((y1 - y0) / (x1 - x0) * (v - x0) + y0)%Q
    end.
Proof.
  intros Hpre H0 H1. induction Hpre as [|[xa ya] pre Ha Hpre IH].
  - cbn. unfold flt, feqb. cbn.
    rewrite (proj1 (Qlt_alt v x1) H1).
    destruct (x0 ?= v)%Q eqn:Hc; [done| |].
    + assert (Hs : Qsign (x1 + - x0) = Gt).
      { unfold Qsign. apply Qgt_alt. apply Qlt_alt in Hc.
        apply (proj1 (Qlt_minus_iff x0 x1)). by apply Qlt_trans with v. }
      by rewrite Hs.
    + apply Qgt_alt in Hc. exfalso. by apply (Qlt_not_le _ _ Hc).
  - assert (Hnext : ∃ xb yb rest,
              pre ++ (x0, y0) :: (x1, y1) :: post = (xb, yb) :: rest ∧ (xb <= v)%Q).
    { destruct Hpre as [|[xb yb] pre' Hb _]; simpl; eauto. }
    destruct Hnext as (xb & yb & rest & Heq & Hb).
    rewrite Heq in IH. cbn in IH. cbn. rewrite Heq. cbn.
    unfold flt at 1. cbn.
    destruct (v ?= xb)%Q eqn:Hc; [exact IH| |exact IH].
    apply Qlt_alt in Hc. exfalso. by apply (Qlt_not_le _ _ Hc).
Qed.

Lemma zip_knots (pts : list (Q * Q)) :
  zip ((λ p, Fin p.1) <$> pts) ((λ p, Fin p.2) <$> pts)
  = (λ p, (Fin p.1, Fin p.2)) <$> pts.
Proof. induction pts as [|p pts IH]; csimpl; [done|]. by rewrite IH. Qed.

Lemma interp_at_chord (pre post : list (Q * Q)) (x0 y0 x1 y1 v : Q) :
  Forall (λ p, (p.1 <= v)%Q) pre → (x0 <= v)%Q → (v < x1)%Q →
  Forall (λ p, (v <= p.1)%Q) post →
  let pts := pre ++ (x0, y0) :: (x1, y1) :: post in
  interp_at ((λ p, Fin p.1) <$> pts) ((λ p, Fin p.2) <$> pts) (Fin v)
  = match (x0 ?= v)%Q with
    | Eq => Fin y0
    | _ => Fin ((y1 - y0) / (x1 - x0) * (v - x0) + y0)%Q
    end.
Proof.
  intros Hpre H0 H1 Hpost pts. unfold interp_at.
  assert (Hlong : (2 ≤ length ((λ p, Fin p.1) <$> pts))%nat).
  { unfold pts. rewrite length_fmap, length_app. simpl. lia. }
  destruct ((λ p, Fin p.1) <$> pts) as [|xa [|xb xs]] eqn:Hxp;
    [simpl in Hlong; lia|simpl in Hlong; lia|clear Hlong].
  rewrite <- Hxp. clear Hxp. cbn [is_nan].
  assert (Hhead : ∃ p, head pts = Some p ∧ (p.1 <= v)%Q).
  { unfold pts. destruct Hpre as [|p pre Hp _]; simpl; eauto. }
  destruct Hhead as (ph & Hh & Hph).
  assert (Hlast : ∃ p, last pts = Some p ∧ (v <= p.1)%Q).
  { unfold pts. rewrite last_app. rewrite !last_cons.
    destruct (last post) as [p|] eqn:Hl.
    - exists p. split; [done|]. apply last_Some_elem_of in Hl.
      by apply (proj1 (Forall_forall _ _) Hpost).
    - exists (x1, y1). split; [done|]. by apply Qlt_le_weak. }
  destruct Hlast as (pl & Hl & Hpl).
  rewrite !head_lookup, !list_lookup_fmap, <- !head_lookup, Hh.
  rewrite !fmap_last, Hl. cbn.
  unfold fgt, flt. cbn.
  destruct (v ?= ph.1)%Q eqn:Hc1.
  2:{ apply Qlt_alt in Hc1. exfalso. by apply (Qlt_not_le _ _ Hc1). }
  all: destruct (pl.1 ?= v)%Q eqn:Hc2.
  all: try (apply Qlt_alt in Hc2; exfalso; by apply (Qlt_not_le _ _ Hc2)).
  all: rewrite zip_knots; by apply interp_seg_chord.
Qed.

(** * Further properties of the notebooks *)

(** ** Restriction to a frequency range *)

Lemma getitem_length {A} (arr : list A) (locs : list nat) (r : list A) :
  getitem arr locs = Ok r → length r = length locs.
Proof.
  revert r; induction locs as [|i locs IH]; intros r H; simpl in H.
  - by injection H as <-.
  - destruct (arr !! i) as [v|]; [|done].
    destruct (getitem arr locs) as [vs|e]; [|done].
    cbn in H. injection H as <-. simpl. by rewrite (IH vs).
Qed.

Lemma getitem_in_bounds {A} (arr : list A) (locs : list nat) :
  Forall (λ i, (i < length arr)%nat) locs →
  ∃ r, getitem arr locs = Ok r
    ∧ ∀ j i, locs !! j = Some i → r !! j = arr !! i.
Proof.
  induction 1 as [|i locs Hi _ (r & Hr & Hlook)]; simpl.
  - exists []. split; [done|]. by intros j i.
  - destruct (lookup_lt_is_Some_2 arr i Hi) as [v Hv]. rewrite Hv, Hr. cbn.
    exists (v :: r). split; [done|].
    intros [|j] i' Hj; simpl in *; [by injection Hj as <-|by apply Hlook].
Qed.

Lemma getitem_out_of_bounds {A} (arr : list A) (locs : list nat) :
  ¬ Forall (λ i, (i < length arr)%nat) locs →
  getitem arr locs = Raise IndexError.
Proof.
  induction locs as [|i locs IH]; intros Hbad; simpl.
  - destruct Hbad. constructor.
  - destruct (arr !! i) as [v|] eqn:Hv; [|done].
    rewrite IH; [done|]. intros Hrest. apply Hbad. constructor; [|done].
    by apply lookup_lt_Some in Hv.
Qed.

Lemma select_all {A} (cond : list bool) (arr : list A) :
  Forall (λ b, b = true) cond → length arr = length cond → select cond arr = arr.
Proof.
  intros H. revert arr. induction H as [|b cond -> _ IH]; intros [|v arr] Hlen;
    simpl in *; try done.
  f_equal. apply IH. lia.
Qed.

Lemma elem_of_select {A} (cond : list bool) (arr : list A) (x : A) :
  x ∈ select cond arr → x ∈ arr.
Proof.
  revert arr; induction cond as [|b cond IH]; intros [|v arr]; simpl;
    try (by intros ?%elem_of_nil).
  rewrite elem_of_app, elem_of_cons. intros [Hx|Hx]; [|right; by apply IH].
  destruct b; [|by apply elem_of_nil in Hx].
  left. by apply list_elem_of_singleton in Hx.
Qed.

Lemma increasing_cons (v : float64) (arr : array) :
  increasing (v :: arr) ↔ (∀ y, y ∈ arr → flt v y = true) ∧ increasing arr.
Proof.
  split.
  - intros Hinc. split.
    + intros y [j Hj]%list_elem_of_lookup_1. apply (Hinc 0%nat (S j)); [lia|done|done].
    + intros i j x y Hij Hi Hj. apply (Hinc (S i) (S j)); [lia|done|done].
  - intros [Hv Hinc] [|i] [|j] x y Hij Hi Hj; simpl in *; try lia.
    + injection Hi as <-. apply Hv. by apply list_elem_of_lookup_2 in Hj.
    + apply (Hinc i j); [lia|done|done].
Qed.

Lemma select_increasing (cond : list bool) (arr : array) :
  increasing arr → increasing (select cond arr).
Proof.
  revert arr; induction cond as [|b cond IH]; intros [|v arr] Hinc; simpl;
    try (by intros i j x y _ Hi; destruct i).
  apply increasing_cons in Hinc as [Hv Hinc]. specialize (IH arr Hinc).
  destruct b; simpl; [|done].
  apply increasing_cons. split; [|done].
  intros y Hy. apply Hv. by apply elem_of_select in Hy.
Qed.

(** X1. The restriction raises IndexError exactly when a selected channel
    lies beyond the end of On_Data or Off_Data, and nothing else is
    checked: when every selected channel exists in both arrays it returns
    the frequencies in the range together with the samples at exactly
    those channels, whatever the lengths of the arrays. *)
Theorem reduce_checks_selected_channels (lo hi : float64) (b : Effelsberg.band) :
  let Locs := np_where (in_range lo hi <$> Effelsberg.Freqs b) in
  let in_bounds := λ i, (i < length (Effelsberg.On_Data b))%nat
                        ∧ (i < length (Effelsberg.Off_Data b))%nat in
  (Forall in_bounds Locs →
     ∃ b', Effelsberg.reduce lo hi b = Ok b'
       ∧ Effelsberg.Freqs b'
         = filter (λ v, in_range lo hi v = true) (Effelsberg.Freqs b)
       ∧ length (Effelsberg.Freqs b') = length Locs
       ∧ ∀ j i, Locs !! j = Some i →
           Effelsberg.Freqs b' !! j = Effelsberg.Freqs b !! i
           ∧ Effelsberg.On_Data b' !! j = Effelsberg.On_Data b !! i
           ∧ Effelsberg.Off_Data b' !! j = Effelsberg.Off_Data b !! i)
  ∧ (¬ Forall in_bounds Locs → Effelsberg.reduce lo hi b = Raise IndexError).
Proof.
  destruct b as [f on off]; simpl.
  assert (Hf : Forall (λ i, (i < length f)%nat) (np_where (in_range lo hi <$> f))).
  { apply Forall_forall. intros i Hi%elem_of_np_where.
    apply lookup_lt_Some in Hi. by rewrite length_fmap in Hi. }
  destruct (getitem_in_bounds f _ Hf) as (rf & Hrf & Hlf).
  assert (Hsel : rf = select (in_range lo hi <$> f) f).
  { rewrite getitem_where in Hrf by (by rewrite length_fmap). by injection Hrf. }
  unfold Effelsberg.reduce; simpl. rewrite range_condition. cbn. rewrite Hrf. cbn.
  split.
  - intros Hin. apply Forall_and in Hin as [Hon Hoff].
    destruct (getitem_in_bounds on _ Hon) as (ron & Hron & Hlon).
    destruct (getitem_in_bounds off _ Hoff) as (roff & Hroff & Hloff).
    rewrite Hron, Hroff. cbn. eexists. split; [done|]. simpl.
    split; [rewrite Hsel; apply select_filter|].
    split; [by apply getitem_length in Hrf|].
    intros j i Hj. split; [by apply Hlf|]. split; [by apply Hlon|by apply Hloff].
  - intros Hbad.
    destruct (decide (Forall (λ i, (i < length on)%nat)
                        (np_where (in_range lo hi <$> f)))) as [Hon|Hon].
    + destruct (getitem_in_bounds on _ Hon) as (ron & Hron & _). rewrite Hron. cbn.
      rewrite getitem_out_of_bounds; [done|].
      intros Hoff. apply Hbad. apply Forall_and. by split.
    + rewrite (getitem_out_of_bounds on) by exact Hon. reflexivity.
Qed.

(** X2. Running the restriction again on its own result changes nothing. *)
Theorem reduce_idempotent (lo hi : float64) (b b' : Effelsberg.band) :
  Effelsberg.reduce lo hi b = Ok b' → Effelsberg.reduce lo hi b' = Ok b'.
Proof.
  destruct b as [f on off]. unfold Effelsberg.reduce at 1; simpl.
  rewrite range_condition. cbn. intros H.
  bind_inv H as rf Hrf. bind_inv H as ron Hron. bind_inv H as roff Hroff.
  injection H as <-.
  assert (Hsel : rf = select (in_range lo hi <$> f) f).
  { rewrite getitem_where in Hrf by (by rewrite length_fmap). by injection Hrf. }
  apply getitem_length in Hrf, Hron, Hroff.
  assert (Hall : Forall (λ c, c = true) (in_range lo hi <$> rf)).
  { apply Forall_fmap. rewrite Hsel. apply select_in_range. }
  unfold Effelsberg.reduce; simpl. rewrite range_condition. cbn.
  rewrite !getitem_where by (rewrite length_fmap; lia). cbn.
  by rewrite !select_all by (done || rewrite length_fmap; lia).
Qed.

Lemma reduce_idempotent_witness :
  ∃ b', Effelsberg.reduce_LBand
          (Effelsberg.Band [Fin 1.2; Fin 1.3; Fin 1.4; Fin 1.5]
             [Fin 1; Fin 2; Fin 3; Fin 4] [Fin 5; Fin 6; Fin 7; Fin 8]) = Ok b'
    ∧ Effelsberg.reduce_LBand b' = Ok b'.
Proof.
  eexists. split; [reflexivity|].
  by apply (reduce_idempotent (Fin 1.28) (Fin 1.46)
              (Effelsberg.Band [Fin 1.2; Fin 1.3; Fin 1.4; Fin 1.5]
                 [Fin 1; Fin 2; Fin 3; Fin 4] [Fin 5; Fin 6; Fin 7; Fin 8])).
Defined.

(** X3. The restriction keeps the channels in their order: when the
    frequencies come in increasing order, so do the restricted ones. *)
Theorem reduce_keeps_order (lo hi : float64) (b b' : Effelsberg.band) :
  increasing (Effelsberg.Freqs b) →
  Effelsberg.reduce lo hi b = Ok b' →
  increasing (Effelsberg.Freqs b').
Proof.
  destruct b as [f on off]. unfold Effelsberg.reduce; simpl.
  rewrite range_condition. cbn. intros Hinc H.
  bind_inv H as rf Hrf. bind_inv H as ron Hron. bind_inv H as roff Hroff.
  injection H as <-. simpl.
  rewrite getitem_where in Hrf by (by rewrite length_fmap). injection Hrf as <-.
  by apply select_increasing.
Qed.

(** ** Downbinning finite samples *)







Lemma downbin_length (arr : array) (k shift : Z) :
  0 < k →
  ∃ out, Effelsberg.downbin arr k shift = Ok out
    ∧ length out = (length arr / Z.to_nat k)%nat.
Proof.
  intros Hk. eexists. split; [by apply downbin_positive|].
  rewrite length_fmap, rows_length. unfold len.
  rewrite <- (Z2Nat.id k) at 1 by lia. rewrite <- Nat2Z.inj_div. apply Nat2Z.id.
Qed.

(** X4. Loading a band never fails, whatever the lengths of the three raw
    arrays: each array is downbinned by 3 on its own, to a third of its
    length (rounded down), so raw arrays of equal length give a band of
    three arrays of equal length. *)
Theorem downbin_band_lengths (data : Effelsberg.band) :
  ∃ b, Effelsberg.downbin_band data = Ok b
    ∧ length (Effelsberg.Freqs b) = (length (Effelsberg.Freqs data) / 3)%nat
    ∧ length (Effelsberg.On_Data b) = (length (Effelsberg.On_Data data) / 3)%nat
    ∧ length (Effelsberg.Off_Data b) = (length (Effelsberg.Off_Data data) / 3)%nat
    ∧ (length (Effelsberg.On_Data data) = length (Effelsberg.Freqs data) →
       length (Effelsberg.Off_Data data) = length (Effelsberg.Freqs data) →
       length (Effelsberg.On_Data b) = length (Effelsberg.Freqs b)
       ∧ length (Effelsberg.Off_Data b) = length (Effelsberg.Freqs b)).
Proof.
  destruct data as [f on off]; simpl.
  destruct (downbin_length f 3 0 ltac:(lia)) as (f' & Hf & Hlf).
  destruct (downbin_length on 3 0 ltac:(lia)) as (on' & Hon & Hlon).
  destruct (downbin_length off 3 0 ltac:(lia)) as (off' & Hoff & Hloff).
  exists (Effelsberg.Band f' on' off'). split.
  { unfold Effelsberg.downbin_band, Effelsberg.downbin_default; simpl.
    by rewrite Hf, Hon, Hoff. }
  simpl. change (Z.to_nat 3) with 3%nat in *.
  split; [done|]. split; [done|]. split; [done|].
  intros H1 H2. rewrite Hlf, Hlon, Hloff, H1, H2. done.
Qed.

(** ** Sums of rationals *)





Lemma flt_finite (a b : Q) : flt (Fin a) (Fin b) = true ↔ (a < b)%Q.
Proof.
  unfold flt. cbn. rewrite Qlt_alt. by destruct (a ?= b)%Q.
Qed.






(** ** Values of the median filter *)

Lemma insert_sorted_perm (a : float64) (l : array) : insert_sorted a l ≡ₚ a :: l.
Proof.
  induction l as [|b l IH]; simpl; [done|].
  destruct (fle a b); [done|]. rewrite IH. apply Permutation_swap.
Qed.

Lemma sorted_perm (l : array) : sorted l ≡ₚ l.
Proof.
  induction l as [|a l IH]; simpl; [done|].
  by rewrite insert_sorted_perm, IH.
Qed.

Lemma median_in_window (w : array) : w ≠ [] → median w ∈ w.
Proof.
  intros Hne. unfold median.
  assert (Hlen : length (sorted w) = length w)
    by (apply Permutation_length, sorted_perm).
  assert (Hpos : (0 < length w)%nat) by (destruct w; [done|simpl; lia]).
  destruct (lookup_lt_is_Some_2 (sorted w) (length w / 2)) as [v Hv].
  { rewrite Hlen. apply Nat.div_lt; lia. }
  rewrite Hv. simpl. apply list_elem_of_lookup_2 in Hv.
  by rewrite sorted_perm in Hv.
Qed.

Lemma window_in_array (size : nat) (x : array) (i : nat) (v : float64) :
  x ≠ [] → v ∈ window reflect size x i → v ∈ x.
Proof.
  intros Hne [j Hj]%list_elem_of_lookup_1.
  assert (Hjs : (j < size)%nat).
  { apply lookup_lt_Some in Hj. by rewrite window_length in Hj. }
  rewrite window_lookup in Hj by done. apply (inj Some) in Hj. subst v.
  assert (Hn : (0 < length x)%nat) by (destruct x; [done|simpl; lia]).
  destruct (lookup_lt_is_Some_2 x
              (reflect (length x) (Z.of_nat i - Z.of_nat (size / 2) + Z.of_nat j)))
    as [v Hv]; [by apply reflect_bound|].
  rewrite Hv. simpl. by apply list_elem_of_lookup_2 in Hv.
Qed.

(** X7. The median filter invents no value: with a window of at least one
    sample, every output is one of the samples of the input array. *)
Theorem median_filter_returns_samples (x : array) (size i : nat) (v : float64) :
  (0 < size)%nat → median_filter x size !! i = Some v → v ∈ x.
Proof.
  intros Hsize Hv.
  assert (Hi : (i < length x)%nat).
  { apply lookup_lt_Some in Hv. by rewrite median_filter_length in Hv. }
  assert (Hne : x ≠ []) by (intros ->; simpl in Hi; lia).
  rewrite median_filter_lookup in Hv by done. injection Hv as <-.
  apply (window_in_array size x i); [done|].
  apply median_in_window. intros Hnil. apply (f_equal length) in Hnil.
  rewrite window_length in Hnil. simpl in Hnil. lia.
Qed.

Lemma median_filter_returns_samples_witness :
  ∃ v, median_filter seventeen 31 !! 1%nat = Some v ∧ v ∈ seventeen.
Proof.
  eexists. split; [reflexivity|].
  apply (median_filter_returns_samples seventeen 31 1); [lia|reflexivity].
Defined.

(** X8. A constant array passes the median filter unchanged, whatever
    the window width. *)
Theorem median_filter_constant (c : float64) (n size : nat) :
  (0 < size)%nat → median_filter (replicate n c) size = replicate n c.
Proof.
  intros Hsize. apply list_eq_same_length with n.
  - by rewrite length_replicate.
  - by rewrite median_filter_length, length_replicate.
  - intros i v w Hi Hv Hw.
    apply lookup_replicate in Hw as [-> _].
    assert (Hne : replicate n c ≠ []) by (destruct n; [lia|done]).
    rewrite median_filter_lookup in Hv by (by rewrite length_replicate).
    injection Hv as <-.
    assert (Hin : median (window reflect size (replicate n c) i) ∈ replicate n c).
    { apply (window_in_array size _ i); [done|].
      apply median_in_window. intros Hnil. apply (f_equal length) in Hnil.
      rewrite window_length in Hnil. simpl in Hnil. lia. }
    by apply elem_of_replicate in Hin as [-> _].
Qed.

Lemma median_filter_constant_witness :
  median_filter (replicate 5 (Fin 2)) 201 = replicate 5 (Fin 2).
Proof. apply (median_filter_constant (Fin 2) 5 201). lia. Defined.

(** ** Interpolation at the knots *)

Lemma Qcompare_refl (x : Q) : (x ?= x)%Q = Eq.
Proof. apply Qeq_alt. reflexivity. Qed.

Lemma interp_seg_last (pts : list (Q * Q)) (p : Q * Q) (v : Q) :
  Forall (λ q, (q.1 <= v)%Q) pts → (p.1 <= v)%Q →
  interp_seg (Fin v) ((λ q, (Fin q.1, Fin q.2)) <$> (p :: pts))
  = Fin (default p (last pts)).2.
Proof.
  intros Hpts. revert p. induction Hpts as [|q pts Hq Hpts IH]; intros p Hp.
  - done.
  - specialize (IH q Hq). destruct p as [x0 y0], q as [x1 y1]. csimpl in *.
    assert (Hge : flt (Fin v) (Fin x1) = false).
    { unfold flt. cbn. destruct (v ?= x1)%Q eqn:Hc; try done.
      apply Qlt_alt in Hc. exfalso. by apply (Qlt_not_le _ _ Hc). }
    rewrite Hge, IH. rewrite last_cons. by destruct (last pts).
Qed.

Lemma flt_finite_ge (a b : Q) : (b <= a)%Q → flt (Fin a) (Fin b) = false.
Proof.
  intros Hle. destruct (flt (Fin a) (Fin b)) eqn:Hlt; [|done].
  apply flt_finite in Hlt. exfalso. by apply (Qlt_not_le _ _ Hlt).
Qed.

Lemma increasing_knots (pts : list (Q * Q)) (i j : nat) (a b : Q * Q) :
  increasing ((λ p, Fin p.1) <$> pts) →
  (i < j)%nat → pts !! i = Some a → pts !! j = Some b → (a.1 < b.1)%Q.
Proof.
  intros Hinc Hij Ha Hb. apply flt_finite.
  apply (Hinc i j); [done| |].
  - by rewrite list_lookup_fmap, Ha.
  - by rewrite list_lookup_fmap, Hb.
Qed.

Lemma interp_at_long (xp fp : array) (v : float64) :
  (2 ≤ length xp)%nat →
  interp_at xp fp v
  = if is_nan v then v
    else if flt v (default NaN (head xp)) then default NaN (head fp)
    else if fgt v (default NaN (last xp)) then default NaN (last fp)
    else interp_seg v (zip xp fp).
Proof. intros Hlen. destruct xp as [|a [|b xp]]; simpl in Hlen; [lia|lia|done]. Qed.

Lemma interp_at_knot (pts : list (Q * Q)) (j : nat) (p : Q * Q) :
  increasing ((λ p, Fin p.1) <$> pts) → pts !! j = Some p →
  interp_at ((λ p, Fin p.1) <$> pts) ((λ p, Fin p.2) <$> pts) (Fin p.1) = Fin p.2.
Proof.
  intros Hinc Hp.
  assert (Hbefore : ∀ i q, (i ≤ j)%nat → pts !! i = Some q → (q.1 <= p.1)%Q).
  { intros i q Hij Hq. destruct (decide (i = j)) as [->|Hne].
    - rewrite Hp in Hq. injection Hq as <-. apply Qle_refl.
    - apply Qlt_le_weak. apply (increasing_knots pts i j); [done|lia|done|done]. }
  destruct (pts !! S j) as [p1|] eqn:Hnext.
  - remember (take j pts) as pre eqn:Hpre.
    remember (drop (S (S j)) pts) as post eqn:Hpost.
    assert (Heq : pts = pre ++ p :: p1 :: post).
    { rewrite Hpre, Hpost. rewrite <- (drop_S _ _ _ Hnext).
      symmetry. by apply take_drop_middle. }
    assert (Hle_pre : Forall (λ q, (q.1 <= p.1)%Q) pre).
    { rewrite Hpre. apply Forall_lookup. intros i q Hq.
      assert (i < j)%nat.
      { apply lookup_lt_Some in Hq. rewrite length_take in Hq. lia. }
      rewrite lookup_take_lt in Hq by done. apply (Hbefore i); [lia|done]. }
    assert (Hge_post : Forall (λ q, (p.1 <= q.1)%Q) post).
    { rewrite Hpost. apply Forall_lookup. intros i q Hq.
      rewrite lookup_drop in Hq. apply Qlt_le_weak.
      apply (increasing_knots pts j (S (S j) + i)); [done|lia|done|done]. }
    assert (Hlt : (p.1 < p1.1)%Q)
      by (apply (increasing_knots pts j (S j)); [done|lia|done|done]).
    clear Hpre Hpost Hbefore Hinc Hp Hnext. subst pts.
    destruct p as [x0 y0], p1 as [x1 y1]. simpl in *.
    rewrite (interp_at_chord pre post x0 y0 x1 y1 x0)
      by (done || apply Qle_refl).
    by rewrite Qcompare_refl.
  - apply lookup_ge_None_1 in Hnext.
    assert (Hlast : last pts = Some p).
    { rewrite last_lookup. rewrite <- Hp. f_equal.
      apply lookup_lt_Some in Hp. lia. }
    assert (Hall : Forall (λ q, (q.1 <= p.1)%Q) pts).
    { apply Forall_lookup. intros i q Hq. apply (Hbefore i); [|done].
      apply lookup_lt_Some in Hq. lia. }
    destruct pts as [|p0 [|p1 rest]]; [done| |].
    + simpl in Hlast. injection Hlast as ->. unfold interp_at. cbn.
      by rewrite Qcompare_refl.
    + rewrite interp_at_long by (rewrite length_fmap; simpl; lia).
      rewrite !fmap_last, Hlast. cbn [is_nan].
      apply Forall_cons in Hall as [H0 Hall].
      change (head ((λ p, Fin p.1) <$> p0 :: p1 :: rest)) with (Some (Fin p0.1)).
      simpl default. unfold fgt.
      rewrite (flt_finite_ge _ _ H0), (flt_finite_ge _ _ (Qle_refl _)).
      rewrite zip_knots, interp_seg_last by done.
      rewrite last_cons_cons in Hlast. by rewrite Hlast.
Qed.

(** X9. Interpolating a table onto its own, strictly increasing
    frequencies returns the table values unchanged. *)
Theorem interp_own_grid (pts : list (Q * Q)) :
  pts ≠ [] → increasing ((λ p, Fin p.1) <$> pts) →
  np_interp ((λ p, Fin p.1) <$> pts) ((λ p, Fin p.1) <$> pts)
    ((λ p, Fin p.2) <$> pts)
  = Ok ((λ p, Fin p.2) <$> pts).
Proof.
  intros Hne Hinc.
  destruct (np_interp_length ((λ p, Fin p.1) <$> pts) ((λ p, Fin p.1) <$> pts)
              ((λ p, Fin p.2) <$> pts)) as [Hrun _].
  { by destruct pts. }
  { by rewrite !length_fmap. }
  rewrite Hrun. f_equal. rewrite <- list_fmap_compose.
  apply list_fmap_ext. intros j p Hp. simpl. by apply (interp_at_knot pts j).
Qed.

Ltac prove_increasing :=
  repeat (apply increasing_cons; split;
          [ let y := fresh "y" in
            let Hy := fresh "Hy" in
            intros y Hy;
            repeat (apply elem_of_cons in Hy as [->|Hy]; [reflexivity|]);
            by apply elem_of_nil in Hy
          | ]);
  by intros [|?] ? ? ? ? ?.

Lemma interp_own_grid_witness :
  np_interp ((λ p, Fin p.1) <$> table3) ((λ p, Fin p.1) <$> table3)
    ((λ p, Fin p.2) <$> table3)
  = Ok [Fin 10; Fin 20; Fin 30].
Proof.
  assert (Hne : table3 ≠ []) by done.
  assert (Hinc : increasing ((λ p, Fin p.1) <$> table3)) by prove_increasing.
  exact (interp_own_grid table3 Hne Hinc).
Defined.

Lemma reduce_keeps_order_witness :
  ∃ b', Effelsberg.reduce_LBand
          (Effelsberg.Band [Fin 1.2; Fin 1.3; Fin 1.4; Fin 1.5]
             [Fin 1; Fin 2; Fin 3; Fin 4] [Fin 5; Fin 6; Fin 7; Fin 8]) = Ok b'
    ∧ increasing (Effelsberg.Freqs b').
Proof.
  assert (Hinc : increasing [Fin 1.2; Fin 1.3; Fin 1.4; Fin 1.5])
    by prove_increasing.
  eexists. split; [reflexivity|].
  apply (reduce_keeps_order (Fin 1.28) (Fin 1.46)
           (Effelsberg.Band [Fin 1.2; Fin 1.3; Fin 1.4; Fin 1.5]
              [Fin 1; Fin 2; Fin 3; Fin 4] [Fin 5; Fin 6; Fin 7; Fin 8]));
    [exact Hinc|reflexivity].
Defined.



(** ** The Effelsberg notebook from raw data to the plotted spectrum *)

Lemma flux_density_runs (Cal_Freqs Cal_FD : array) (b : Effelsberg.band) :
  Cal_Freqs ≠ [] → length Cal_FD = length Cal_Freqs →
  length (Effelsberg.On_Data b) = length (Effelsberg.Freqs b) →
  Effelsberg.flux_density Cal_Freqs Cal_FD b
  = Ok (zip_with fmul
          (zip_with fdiv (interp_at Cal_Freqs Cal_FD <$> Effelsberg.Freqs b)
             (median_filter (Effelsberg.On_Data b) 201))
          (Effelsberg.On_Data b)).
Proof.
  intros Hne Hfd Hon.
  destruct (np_interp_length (Effelsberg.Freqs b) Cal_Freqs Cal_FD Hne Hfd)
    as [Hint Hlen].
  unfold Effelsberg.flux_density, Effelsberg.calibration. rewrite Hint. cbn.
  unfold np_divide. rewrite broadcast_same_length
    by (rewrite median_filter_length; lia).
  cbn. apply broadcast_same_length.
  rewrite length_zip_with, median_filter_length. lia.
Qed.

Lemma flux_density_bad_table (Cal_Freqs Cal_FD : array) (b : Effelsberg.band) :
  Cal_Freqs = [] ∨ length Cal_FD ≠ length Cal_Freqs →
  Effelsberg.flux_density Cal_Freqs Cal_FD b = Raise ValueError.
Proof.
  intros Hbad. unfold Effelsberg.flux_density, Effelsberg.calibration, np_interp.
  destruct Hbad as [->|Hbad]; [done|].
  case_decide; [done|]. by rewrite decide_True.
Qed.

(** X10. On raw arrays of equal length the Effelsberg notebook raises no
    IndexError and no shape error: with a non-empty calibration table
    whose two rows have equal length it returns the frequencies of the
    downbinned channels in the range and one flux density for each of
    them; with an empty or ragged table it raises ValueError. *)
Theorem effelsberg_notebook_runs (lo hi : float64) (Cal_Freqs Cal_FD : array)
    (data : Effelsberg.band) :
  length (Effelsberg.On_Data data) = length (Effelsberg.Freqs data) →
  length (Effelsberg.Off_Data data) = length (Effelsberg.Freqs data) →
  ∃ raw, Effelsberg.downbin_band data = Ok raw
    ∧ (Cal_Freqs ≠ [] → length Cal_FD = length Cal_Freqs →
       ∃ x y, Effelsberg.notebook lo hi Cal_Freqs Cal_FD data = Ok (x, y)
         ∧ x = filter (λ v, in_range lo hi v = true) (Effelsberg.Freqs raw)
         ∧ length y = length x
         ∧ (length x ≤ length (Effelsberg.Freqs data) / 3)%nat)
    ∧ (Cal_Freqs = [] ∨ length Cal_FD ≠ length Cal_Freqs →
       Effelsberg.notebook lo hi Cal_Freqs Cal_FD data = Raise ValueError).
Proof.
  destruct data as [f on off].
  cbn [Effelsberg.Freqs Effelsberg.On_Data Effelsberg.Off_Data]. intros Hon Hoff.
  destruct (downbin_length f 3 0 ltac:(lia)) as (f' & Hf & Hlf).
  destruct (downbin_length on 3 0 ltac:(lia)) as (on' & Hon' & Hlon).
  destruct (downbin_length off 3 0 ltac:(lia)) as (off' & Hoff' & Hloff).
  change (Z.to_nat 3) with 3%nat in *.
  assert (Hraw : Effelsberg.downbin_band (Effelsberg.Band f on off)
                 = Ok (Effelsberg.Band f' on' off')).
  { unfold Effelsberg.downbin_band, Effelsberg.downbin_default; simpl.
    by rewrite Hf, Hon', Hoff'. }
  destruct (Effelsberg_reduce_aligned lo hi (Effelsberg.Band f' on' off'))
    as (b' & Hred & Hfilter & _ & Hlon' & Hloff');
    [simpl; congruence|simpl; congruence|].
  simpl in Hfilter.
  exists (Effelsberg.Band f' on' off'). split; [done|]. split.
  - intros Hne Hfd. eexists _, _. split.
    { unfold Effelsberg.notebook. rewrite Hraw. cbn. rewrite Hred. cbn.
      rewrite flux_density_runs by done. reflexivity. }
    split; [done|]. split.
    + rewrite !length_zip_with, length_fmap, median_filter_length. lia.
    + rewrite Hfilter, <- Hlf. apply length_filter.
  - intros Hbad. unfold Effelsberg.notebook. rewrite Hraw. cbn. rewrite Hred. cbn.
    by rewrite flux_density_bad_table.
Qed.

Lemma effelsberg_notebook_runs_witness :
  ∃ x y, Effelsberg.notebook (Fin 1.28) (Fin 1.46) [Fin 1; Fin 2] [Fin 10; Fin 20]
           six_raw = Ok (x, y)
    ∧ length y = length x.
Proof.
  assert (Hne : [Fin 1; Fin 2] ≠ []) by done.
  destruct (effelsberg_notebook_runs (Fin 1.28) (Fin 1.46) [Fin 1; Fin 2]
              [Fin 10; Fin 20] six_raw eq_refl eq_refl)
    as (raw & _ & Hrun & _).
  destruct (Hrun Hne eq_refl) as (x & y & Hxy & _ & Hlen & _).
  by exists x, y.
Defined.



(** ** The GBT notebook from the loaded arrays to the plotted spectrum *)

Lemma get_array_Some (env : GBT.names) (x : string) (a : array) :
  env !! x = Some (GBT.VArray a) → GBT.get_array env x = Ok a.
Proof. intros H. unfold GBT.get_array. by rewrite H. Qed.

Lemma get_index_Some (env : GBT.names) (x : string) (l : list nat) :
  env !! x = Some (GBT.VIndex l) → GBT.get_index env x = Ok l.
Proof. intros H. unfold GBT.get_index. by rewrite H. Qed.

Lemma for_each_item_runs (items : list array) (env : GBT.names) (l : list nat) :
  env !! "locs" = Some (GBT.VIndex l) →
  Forall (λ a : array, Forall (λ i, (i < length a)%nat) l) items →
  ∃ env',
    GBT.for_each (λ env item, GBT.reduce_item (<["item" := GBT.VArray item]> env))
      env items = Ok env'
    ∧ ∀ x, x ≠ "item" → env' !! x = env !! x.
Proof.
  intros Hlocs Hitems. revert env Hlocs.
  induction Hitems as [|a items Ha _ IH]; intros env Hlocs; simpl.
  - by exists env.
  - destruct (getitem_in_bounds a l Ha) as (r & Hr & _).
    assert (Hbody : GBT.reduce_item (<["item" := GBT.VArray a]> env)
                    = Ok (<["item" := GBT.VArray r]> (<["item" := GBT.VArray a]> env))).
    { unfold GBT.reduce_item.
      rewrite (get_array_Some _ "item" a) by apply lookup_insert_eq. cbn.
      rewrite (get_index_Some _ "locs" l) by (by rewrite lookup_insert_ne).
      cbn. by rewrite Hr. }
    rewrite Hbody. cbn.
    destruct (IH (<["item" := GBT.VArray r]> (<["item" := GBT.VArray a]> env)))
      as (env' & Hrun & Hframe).
    { by rewrite !lookup_insert_ne. }
    exists env'. split; [done|].
    intros x Hx. rewrite Hframe by done. by rewrite !lookup_insert_ne.
Qed.

(** X12. "Reduce the Data" binds the four names locs, item, mask_locs and
    mask and no other: whenever the cell runs, every other variable of the
    notebook holds the value it held before, and mask is the mask of the
    loaded frequency array. *)
Theorem reduce_cell_binds_four_names (env env' : GBT.names) :
  GBT.reduce_cell env = Ok env' →
  (∀ x, x ∉ ["locs"; "item"; "mask_locs"; "mask"] → env' !! x = env !! x)
  ∧ ∃ freqs mask,
      env !! "M31_Freqs" = Some (GBT.VArray freqs)
      ∧ env' !! "locs"
        = Some (GBT.VIndex (np_where (in_range (Fin 1.15) (Fin 1.73) <$> freqs)))
      ∧ env' !! "mask_locs"
        = Some (GBT.VIndex (np_where (in_range (Fin 1.2) (Fin 1.34) <$> freqs)))
      ∧ GBT.make_mask freqs (Fin 1.2) (Fin 1.34) = Ok mask
      ∧ env' !! "mask" = Some (GBT.VArray mask).
Proof.
  intros Hrun. split.
  - revert Hrun. unfold GBT.reduce_cell. intros H x Hx.
    bind_inv H as freqs Hfreqs. bind_inv H as cond Hcond.
    bind_inv H as items Hitems. bind_inv H as env1 Hloop.
    bind_inv H as freqs1 Hfreqs1. bind_inv H as cond1 Hcond1.
    bind_inv H as freqs2 Hfreqs2. bind_inv H as mask Hmask.
    bind_inv H as mask_locs Hmask_locs. bind_inv H as mask' Hset.
    injection H as <-.
    assert (x ≠ "locs" ∧ x ≠ "item" ∧ x ≠ "mask_locs" ∧ x ≠ "mask")
      as (? & ? & ? & ?).
    { rewrite !not_elem_of_cons in Hx. destruct Hx as (? & ? & ? & ? & _). done. }
    rewrite !lookup_insert_ne by done.
    rewrite (for_each_item_keeps _ _ _ x Hloop) by done.
    by rewrite lookup_insert_ne.
  - destruct (reduce_cell_mask env env' Hrun) as (freqs & mask & Hf & Hmask & Hm).
    exists freqs, mask. split; [done|].
    revert Hrun. unfold GBT.reduce_cell. intros H.
    rewrite (get_array_Some _ _ _ Hf) in H. cbn in H.
    rewrite range_condition in H. cbn in H.
    bind_inv H as items Hitems. bind_inv H as env1 Hloop.
    assert (Hlocs1 : env1 !! "locs"
              = Some (GBT.VIndex (np_where (in_range (Fin 1.15) (Fin 1.73) <$> freqs)))).
    { rewrite (for_each_item_keeps _ _ _ "locs" Hloop) by done.
      apply lookup_insert_eq. }
    assert (Hf1 : env1 !! "M31_Freqs" = Some (GBT.VArray freqs)).
    { rewrite (for_each_item_keeps _ _ _ "M31_Freqs" Hloop) by done.
      by rewrite lookup_insert_ne. }
    rewrite (get_array_Some _ _ _ Hf1) in H. cbn in H.
    rewrite range_condition in H. cbn in H.
    bind_inv H as freqs2 Hfreqs2. bind_inv H as mask0 Hmask0.
    bind_inv H as mask_locs Hmask_locs. bind_inv H as mask' Hset.
    injection H as <-.
    split; [by rewrite !lookup_insert_ne|].
    split; [by rewrite lookup_insert_ne, lookup_insert_ne, lookup_insert_eq|].
    done.
Qed.

Lemma reduce_cell_binds_four_names_witness :
  ∃ env', GBT.reduce_cell gbt_loaded = Ok env'
    ∧ env' !! "M31_Sig" = gbt_loaded !! "M31_Sig".
Proof.
  eexists. split; [vm_compute; reflexivity|].
  refine (proj1 (reduce_cell_binds_four_names gbt_loaded _ _) "M31_Sig" _).
  - vm_compute; reflexivity.
  - rewrite !not_elem_of_cons. repeat split; try done. apply not_elem_of_nil.
Defined.

Lemma bind_Ok_eq {A B} (a : A) (f : A → result B) : Ok a ≫= f = f a.
Proof. reflexivity. Qed.

Lemma where_in_bounds (lo hi : float64) (freqs : array) {A} (a : list A) :
  (length freqs ≤ length a)%nat →
  Forall (λ i, (i < length a)%nat) (np_where (in_range lo hi <$> freqs)).
Proof.
  intros Hlen. apply Forall_forall. intros i Hi%elem_of_np_where.
  apply lookup_lt_Some in Hi. rewrite length_fmap in Hi. lia.
Qed.

Lemma reduce_cell_runs (env : GBT.names) (f t s r sa ra cal : array) :
  env !! "M31_Freqs" = Some (GBT.VArray f) →
  env !! "M31_AntennaTemp" = Some (GBT.VArray t) →
  env !! "M31_Sig" = Some (GBT.VArray s) →
  env !! "M31_Ref" = Some (GBT.VArray r) →
  env !! "M31_SigAccept" = Some (GBT.VArray sa) →
  env !! "M31_RefAccept" = Some (GBT.VArray ra) →
  env !! "Cal_Func" = Some (GBT.VArray cal) →
  Forall (λ a : array,
            Forall (λ i, (i < length a)%nat)
              (np_where (in_range (Fin 1.15) (Fin 1.73) <$> f)))
    [t; s; r; sa; ra; cal] →
  ∃ env' mask,
    GBT.reduce_cell env = Ok env'
    ∧ GBT.make_mask f (Fin 1.2) (Fin 1.34) = Ok mask
    ∧ env' !! "mask" = Some (GBT.VArray mask)
    ∧ ∀ x, x ∉ ["locs"; "item"; "mask_locs"; "mask"] → env' !! x = env !! x.
Proof.
  intros Hf Ht Hs Hr Hsa Hra Hcal Hin.
  set (locs := np_where (in_range (Fin 1.15) (Fin 1.73) <$> f)) in *.
  destruct (for_each_item_runs [f; t; s; r; sa; ra; cal]
              (<["locs" := GBT.VIndex locs]> env) locs)
    as (env1 & Hloop & Hframe).
  { apply lookup_insert_eq. }
  { constructor; [|done]. by apply where_in_bounds. }
  destruct (make_mask_lookup f (Fin 1.2) (Fin 1.34)) as (mask & Hmask & _).
  assert (Hset : setitem (np_ones_like f)
                   (np_where (in_range (Fin 1.2) (Fin 1.34) <$> f)) NaN = Ok mask).
  { revert Hmask. unfold GBT.make_mask. by rewrite range_condition. }
  assert (Hf1 : env1 !! "M31_Freqs" = Some (GBT.VArray f)).
  { rewrite Hframe by done. by rewrite lookup_insert_ne. }
  eexists _, mask. split; [|split; [exact Hmask|]].
  - assert (Hdisp : GBT.list_display (<["locs" := GBT.VIndex locs]> env)
                      ["M31_Freqs"; "M31_AntennaTemp"; "M31_Sig"; "M31_Ref";
                       "M31_SigAccept"; "M31_RefAccept"; "Cal_Func"]
                    = Ok [f; t; s; r; sa; ra; cal]).
    { unfold GBT.list_display.
      rewrite (get_array_Some _ "M31_Freqs" f) by (by rewrite lookup_insert_ne).
      rewrite (get_array_Some _ "M31_AntennaTemp" t) by (by rewrite lookup_insert_ne).
      rewrite (get_array_Some _ "M31_Sig" s) by (by rewrite lookup_insert_ne).
      rewrite (get_array_Some _ "M31_Ref" r) by (by rewrite lookup_insert_ne).
      rewrite (get_array_Some _ "M31_SigAccept" sa) by (by rewrite lookup_insert_ne).
      rewrite (get_array_Some _ "M31_RefAccept" ra) by (by rewrite lookup_insert_ne).
      rewrite (get_array_Some _ "Cal_Func" cal) by (by rewrite lookup_insert_ne).
      reflexivity. }
    unfold GBT.reduce_cell. cbv zeta.
    rewrite (get_array_Some _ _ _ Hf), bind_Ok_eq. cbv beta.
    rewrite range_condition, bind_Ok_eq. cbv beta. fold locs.
    rewrite Hdisp, bind_Ok_eq. cbv beta.
    rewrite Hloop, bind_Ok_eq. cbv beta.
    rewrite (get_array_Some _ _ _ Hf1), bind_Ok_eq. cbv beta.
    rewrite range_condition, bind_Ok_eq. cbv beta.
    rewrite (get_array_Some _ "M31_Freqs" f), bind_Ok_eq
      by (by rewrite lookup_insert_ne).
    cbv beta.
    rewrite (get_array_Some _ "mask" (np_ones_like f)), bind_Ok_eq
      by apply lookup_insert_eq.
    cbv beta.
    rewrite (get_index_Some _ "mask_locs"
               (np_where (in_range (Fin 1.2) (Fin 1.34) <$> f))), bind_Ok_eq
      by (by rewrite lookup_insert_ne, lookup_insert_eq).
    cbv beta. rewrite Hset, bind_Ok_eq. reflexivity.
  - split; [apply lookup_insert_eq|].
    intros x Hx. rewrite !not_elem_of_cons in Hx.
    destruct Hx as (? & ? & ? & ? & _).
    rewrite !lookup_insert_ne by done. rewrite Hframe by done.
    by rewrite lookup_insert_ne.
Qed.

(** X13. With seven loaded arrays of equal length the GBT notebook runs
    without error and plots every loaded channel: the x array is the whole
    frequency array, also outside 1.15 - 1.73 GHz, the y array has the same
    length, and it is NaN at every channel of the notch 1.2 - 1.34 GHz. *)
Theorem gbt_notebook_plots_every_channel
    (freqs temp sig ref sig_acc ref_acc cal : array) :
  Forall (λ a : array, length a = length freqs)
    [temp; sig; ref; sig_acc; ref_acc; cal] →
  ∃ mask y,
    GBT.make_mask freqs (Fin 1.2) (Fin 1.34) = Ok mask
    ∧ GBT.notebook (GBT.loaded freqs temp sig ref sig_acc ref_acc cal)
      = Ok (freqs, y)
    ∧ y = zip_with fmul mask (zip_with fmul cal temp)
    ∧ length y = length freqs
    ∧ ∀ i f, freqs !! i = Some f → in_range (Fin 1.2) (Fin 1.34) f = true →
        y !! i = Some NaN.
Proof.
  intros Hlen.
  assert (Htemp : length temp = length freqs)
    by (by apply Forall_cons in Hlen as [? _]).
  assert (Hcal : length cal = length freqs).
  { apply (proj1 (Forall_forall _ _) Hlen cal). rewrite !elem_of_cons. tauto. }
  set (env := GBT.loaded freqs temp sig ref sig_acc ref_acc cal).
  destruct (reduce_cell_runs env freqs temp sig ref sig_acc ref_acc cal)
    as (env' & mask & Hrun & Hmask & Hm & Hframe); try reflexivity.
  { apply (Forall_impl _ _ _ Hlen). intros a Ha. apply where_in_bounds. lia. }
  destruct (make_mask_lookup freqs (Fin 1.2) (Fin 1.34))
    as (mask' & Hmask' & Hlm & Hlook).
  rewrite Hmask in Hmask'. injection Hmask' as <-.
  assert (Hkeep : ∀ x, x ∈ ["M31_Freqs"; "M31_AntennaTemp"; "Cal_Func"] →
                    env' !! x = env !! x).
  { intros x Hx. apply Hframe. rewrite !elem_of_cons in Hx.
    rewrite !not_elem_of_cons. destruct Hx as [->|[->|[->|Hx]]];
      [| | |by apply elem_of_nil in Hx]; repeat split; try done;
      apply not_elem_of_nil. }
  exists mask, (zip_with fmul mask (zip_with fmul cal temp)).
  split; [done|]. split.
  { unfold GBT.notebook. rewrite Hrun, bind_Ok_eq.
    rewrite (get_array_Some env' "M31_Freqs" freqs), bind_Ok_eq
      by (rewrite Hkeep; [reflexivity|rewrite !elem_of_cons; tauto]).
    unfold GBT.plot_cell.
    rewrite (get_array_Some env' "mask" mask), bind_Ok_eq by done.
    rewrite (get_array_Some env' "Cal_Func" cal), bind_Ok_eq
      by (rewrite Hkeep; [reflexivity|rewrite !elem_of_cons; tauto]).
    rewrite (get_array_Some env' "M31_AntennaTemp" temp), bind_Ok_eq
      by (rewrite Hkeep; [reflexivity|rewrite !elem_of_cons; tauto]).
    unfold GBT.flux_density, np_multiply.
    rewrite (broadcast_same_length fmul cal temp), bind_Ok_eq by lia.
    rewrite broadcast_same_length by (rewrite length_zip_with; lia).
    reflexivity. }
  split; [done|]. split; [rewrite !length_zip_with; lia|].
  intros i f Hf Hr. rewrite lookup_zip_with, (Hlook i f Hf), Hr. simpl.
  destruct (lookup_lt_is_Some_2 (zip_with fmul cal temp) i) as [c ->]; [|done].
  apply lookup_lt_Some in Hf. rewrite length_zip_with. lia.
Qed.

Lemma gbt_notebook_plots_every_channel_witness :
  ∃ y, GBT.notebook gbt_loaded = Ok (three_channels, y) ∧ length y = 3%nat.
Proof.
  assert (Hlen : Forall (λ a : array, length a = length three_channels)
            [three_channels; three_channels; three_channels;
             three_channels; three_channels; three_channels])
    by (repeat constructor).
  destruct (gbt_notebook_plots_every_channel three_channels three_channels
              three_channels three_channels three_channels three_channels
              three_channels Hlen)
    as (mask & y & _ & Hrun & _ & Hly & _).
  by exists y.
Defined.

Lemma for_each_item_fails (items : list array) (env : GBT.names) (l : list nat) :
  env !! "locs" = Some (GBT.VIndex l) →
  ¬ Forall (λ a : array, Forall (λ i, (i < length a)%nat) l) items →
  GBT.for_each (λ env item, GBT.reduce_item (<["item" := GBT.VArray item]> env))
    env items = Raise IndexError.
Proof.
  revert env. induction items as [|a items IH]; intros env Hlocs Hbad.
  - destruct Hbad. constructor.
  - cbn [GBT.for_each].
    assert (Hbody : GBT.reduce_item (<["item" := GBT.VArray a]> env)
                    = getitem a l ≫= λ r,
                        mret (<["item" := GBT.VArray r]>
                                (<["item" := GBT.VArray a]> env))).
    { unfold GBT.reduce_item.
      rewrite (get_array_Some _ "item" a), bind_Ok_eq by apply lookup_insert_eq.
      by rewrite (get_index_Some _ "locs" l), bind_Ok_eq
        by (by rewrite lookup_insert_ne). }
    rewrite Hbody.
    destruct (decide (Forall (λ i, (i < length a)%nat) l)) as [Ha|Ha].
    + destruct (getitem_in_bounds a l Ha) as (r & Hr & _).
      rewrite Hr, !bind_Ok_eq. apply IH.
      * by rewrite !lookup_insert_ne.
      * intros Hrest. apply Hbad. by constructor.
    + by rewrite getitem_out_of_bounds.
Qed.

(** X14. Although its loop changes no array, "Reduce the Data" still
    indexes each of them: when one of the six arrays listed after
    M31_Freqs is too short for a channel selected in M31_Freqs, the cell
    raises IndexError. *)
Theorem reduce_cell_short_array (env : GBT.names) (f t s r sa ra cal : array) :
  env !! "M31_Freqs" = Some (GBT.VArray f) →
  env !! "M31_AntennaTemp" = Some (GBT.VArray t) →
  env !! "M31_Sig" = Some (GBT.VArray s) →
  env !! "M31_Ref" = Some (GBT.VArray r) →
  env !! "M31_SigAccept" = Some (GBT.VArray sa) →
  env !! "M31_RefAccept" = Some (GBT.VArray ra) →
  env !! "Cal_Func" = Some (GBT.VArray cal) →
  ¬ Forall (λ a : array,
              Forall (λ i, (i < length a)%nat)
                (np_where (in_range (Fin 1.15) (Fin 1.73) <$> f)))
      [t; s; r; sa; ra; cal] →
  GBT.reduce_cell env = Raise IndexError.
Proof.
  intros Hf Ht Hs Hr Hsa Hra Hcal Hbad.
  set (locs := np_where (in_range (Fin 1.15) (Fin 1.73) <$> f)) in *.
  assert (Hdisp : GBT.list_display (<["locs" := GBT.VIndex locs]> env)
                    ["M31_Freqs"; "M31_AntennaTemp"; "M31_Sig"; "M31_Ref";
                     "M31_SigAccept"; "M31_RefAccept"; "Cal_Func"]
                  = Ok [f; t; s; r; sa; ra; cal]).
  { unfold GBT.list_display.
    rewrite (get_array_Some _ "M31_Freqs" f) by (by rewrite lookup_insert_ne).
    rewrite (get_array_Some _ "M31_AntennaTemp" t) by (by rewrite lookup_insert_ne).
    rewrite (get_array_Some _ "M31_Sig" s) by (by rewrite lookup_insert_ne).
    rewrite (get_array_Some _ "M31_Ref" r) by (by rewrite lookup_insert_ne).
    rewrite (get_array_Some _ "M31_SigAccept" sa) by (by rewrite lookup_insert_ne).
    rewrite (get_array_Some _ "M31_RefAccept" ra) by (by rewrite lookup_insert_ne).
    rewrite (get_array_Some _ "Cal_Func" cal) by (by rewrite lookup_insert_ne).
    reflexivity. }
  unfold GBT.reduce_cell. cbv zeta.
  rewrite (get_array_Some _ _ _ Hf), bind_Ok_eq. cbv beta.
  rewrite range_condition, bind_Ok_eq. cbv beta. fold locs.
  rewrite Hdisp, bind_Ok_eq. cbv beta.
  rewrite (for_each_item_fails _ _ locs); [reflexivity|apply lookup_insert_eq|].
  intros Hall. apply Forall_cons in Hall as [_ Hall]. by apply Hbad.
Qed.

Lemma reduce_cell_short_array_witness :
  GBT.reduce_cell
    (GBT.loaded three_channels three_channels three_channels three_channels
       three_channels three_channels [Fin 1])
  = Raise IndexError.
Proof.
  apply (reduce_cell_short_array _ three_channels three_channels three_channels
           three_channels three_channels three_channels [Fin 1]);
    try reflexivity.
  intros Hall.
  assert (Hcal := proj1 (Forall_forall _ _) Hall [Fin 1]
                    ltac:(rewrite !elem_of_cons; tauto)).
  apply Forall_cons in Hcal as [Hcal _]. simpl in Hcal. lia.
Defined.

(** ** Shapes in the calibration product *)

Lemma broadcast_mismatch {A B C} (f : A → B → C) (a : list A) (b : list B) :
  length a ≠ length b → length a ≠ 1%nat → length b ≠ 1%nat →
  broadcast f a b = Raise ValueError.
Proof.
  intros Hab Ha Hb. unfold broadcast. rewrite decide_False by done.
  destruct a as [|x [|x' a]], b as [|y [|y' b]]; simpl in *; done.
Qed.

Lemma broadcast_scalar_l {A B C} (f : A → B → C) (x : A) (b : list B) :
  broadcast f [x] b = Ok (f x <$> b).
Proof.
  unfold broadcast. case_decide as Hlen; [|done].
  destruct b as [|y [|y' b]]; simpl in Hlen; done.
Qed.

(** X15. The calibration product of the GBT notebook compares nothing but
    the shapes of its operands: a multiplier and a target of different
    lengths, neither of length 1, raise ValueError, and a multiplier of a
    single channel is applied to every channel of the target. *)
Theorem flux_density_shapes (mask Cal_Func M31_AntennaTemp : array) (c : float64) :
  (length Cal_Func ≠ length M31_AntennaTemp →
   length Cal_Func ≠ 1%nat → length M31_AntennaTemp ≠ 1%nat →
   GBT.flux_density mask Cal_Func M31_AntennaTemp = Raise ValueError)
  ∧ (length mask = length M31_AntennaTemp →
     GBT.flux_density mask [c] M31_AntennaTemp
     = Ok (zip_with fmul mask (fmul c <$> M31_AntennaTemp))).
Proof.
  split.
  - intros Hne H1 H2. unfold GBT.flux_density, np_multiply.
    by rewrite broadcast_mismatch.
  - intros Hlen. unfold GBT.flux_density, np_multiply.
    rewrite broadcast_scalar_l, bind_Ok_eq.
    apply broadcast_same_length. by rewrite length_fmap.
Qed.


(** ** Interpolation between and outside the knots *)



